(** * NAS_assessment: a contact store with interchangeable file formats

    Shallow embedding of [NAS_assessment.py] (classes [Record], [CSVFormat],
    [JSONFormat] and [Database]) and the properties of its storage layer.

    Conventions of the embedding.
    - A Python [str] is a [string]: a sequence of 8-bit characters standing
      for the code points U+0000..U+00FF.  A text file is the sequence of
      characters it decodes to.
    - The file system is a finite map from path names to file contents;
      every path names a regular file or nothing; opening and writing
      never fail (no permissions, no full disk) and removing fails on a
      missing file only.
    - The platform is POSIX: [os.path.normcase] is the identity and writing
      in text mode leaves line feeds alone.
    - The standard library is the one of CPython 3.11: [csv] with the
      excel dialect, [json] with its default encoder and decoder,
      [fnmatch], text files read with universal newlines.  The field
      size limit of [csv] is the default one, which the program never
      changes; the recursion limit is left out.
    - A Python exception is a value of [exn]; a method is a function from
      the state before the call to an outcome and the state after it. *)

From Stdlib Require Import String Ascii List NArith Lia Bool.
From stdpp Require Import base option list strings gmap.
Import ListNotations.

Local Open Scope string_scope.
Local Open Scope list_scope.

(** ** Characters and strings *)

Module Py.

Definition LF : ascii := "010"%char.
Definition CR : ascii := "013"%char.
Definition DQUOTE : ascii := "034"%char.
Definition COMMA : ascii := ","%char.
Definition DOT : ascii := "."%char.

(** A one-character string, as produced by iterating over a [str]. *)
Definition chr (c : ascii) : string := String c EmptyString.

(** [c in s] for a character [c]. *)
Fixpoint contains (c : ascii) (s : string) : bool :=
  match s with
  | EmptyString => false
  | String x s' => Ascii.eqb x c || contains c s'
  end.

(** [s.count(c)] for a character [c]. *)
Fixpoint count (c : ascii) (s : string) : nat :=
  match s with
  | EmptyString => 0
  | String x s' => (if Ascii.eqb x c then 1 else 0) + count c s'
  end.

(** The characters of a string, as the one-character strings Python
    yields in [for subItem in searchItem]. *)
Fixpoint chars (s : string) : list string :=
  match s with
  | EmptyString => []
  | String x s' => chr x :: chars s'
  end.

(** [sep.join(parts)]. *)
Fixpoint join (sep : string) (parts : list string) : string :=
  match parts with
  | [] => EmptyString
  | [p] => p
  | p :: ps => p +:+ sep +:+ join sep ps
  end.

(** [str.isspace] on one character of the range U+0000..U+00FF. *)
Definition isspace (c : ascii) : bool :=
  let n := N_of_ascii c in
  ((9 <=? n) && (n <=? 13) || (28 <=? n) && (n <=? 32)
   || (n =? 133) || (n =? 160))%N.

Fixpoint lstrip (s : string) : string :=
  match s with
  | EmptyString => EmptyString
  | String c s' => if isspace c then lstrip s' else s
  end.

(** [rstrip] keeps a character when it is not a space or when something
    is left after it. *)
Fixpoint rstrip (s : string) : string :=
  match s with
  | EmptyString => EmptyString
  | String c s' =>
      match rstrip s' with
      | EmptyString => if isspace c then EmptyString else chr c
      | r => String c r
      end
  end.

(** [s.strip()]. *)
Definition strip (s : string) : string := rstrip (lstrip s).

(** [s.split(sep)] for a one-character separator: never empty. *)
Fixpoint split (sep : ascii) (s : string) : list string :=
  match s with
  | EmptyString => [EmptyString]
  | String c s' =>
      if Ascii.eqb c sep then EmptyString :: split sep s'
      else match split sep s' with
           | p :: ps => String c p :: ps
           | [] => [chr c]
           end
  end.

(** Text mode with [newline=None] on reading: every line ending, CR LF or
    a lone CR, is handed to the program as LF. *)
Fixpoint universal_newlines (s : string) : string :=
  match s with
  | EmptyString => EmptyString
  | String c s' =>
      if Ascii.eqb c CR then
        String LF
          match s' with
          | String c' s'' =>
              if Ascii.eqb c' LF then universal_newlines s''
              else universal_newlines s'
          | EmptyString => EmptyString
          end
      else String c (universal_newlines s')
  end.

End Py.

(** ** Exceptions and the state monad of methods *)

(** The Python exceptions the storage layer can raise; [CsvError] is
    [csv.Error] and [JSONDecodeError] is [json.JSONDecodeError].
    [Unrepresentable] is not a Python exception: it marks an input that
    leaves the model (a
    JSON number, an escape above U+00FF, a record field that is not a
    string). *)
Inductive exn : Type :=
  | TypeError
  | IndexError
  | KeyError
  | StopIteration
  | AttributeError
  | ValueError
  | JSONDecodeError
  | CsvError
  | FileNotFoundError
  | RecursionError
  | Unrepresentable.

Inductive res (A : Type) : Type :=
  | Ret (a : A)
  | Raise (e : exn).
Arguments Ret {A} a.
Arguments Raise {A} e.

Section StateExn.
Context {S : Type}.

(** A computation over a state [S] that returns or raises; the state
    reached when it raises is kept, as side effects are in Python. *)
Definition M (A : Type) : Type := S -> res A * S.

Definition ret {A} (a : A) : M A := fun s => (Ret a, s).
Definition raise {A} (e : exn) : M A := fun s => (Raise e, s).
Definition bind {A B} (m : M A) (k : A -> M B) : M B :=
  fun s => match m s with
           | (Ret a, s') => k a s'
           | (Raise e, s') => (Raise e, s')
           end.
Definition get : M S := fun s => (Ret s, s).
Definition put (s : S) : M unit := fun _ => (Ret tt, s).
Definition modify (f : S -> S) : M unit := fun s => (Ret tt, f s).

(** [for x in xs: body x]. *)
Fixpoint for_each {A} (xs : list A) (body : A -> M unit) : M unit :=
  match xs with
  | [] => ret tt
  | x :: xs' => bind (body x) (fun _ => for_each xs' body)
  end.
End StateExn.
Arguments M : clear implicits.

Notation "'let*' x ':=' m 'in' k" := (bind m (fun x => k))
  (at level 10, x name, m at level 100, k at level 200).

(** ** Records *)

(** [class Record(dict)]: an insertion-ordered dictionary from field names
    to string values, kept as an association list without repeated keys. *)
Abbreviation Record := (list (string * string)).

Module Rec.

(** [Record.categories]. *)
Definition categories : list string := ["name"; "address"; "phone number"].

(** [record[key]]; [None] stands for [KeyError]. *)
Fixpoint get (r : Record) (key : string) : option string :=
  match r with
  | [] => None
  | (k, v) :: r' => if String.eqb k key then Some v else get r' key
  end.

(** [record[key] = value]: a present key keeps its place. *)
Fixpoint set (r : Record) (key value : string) : Record :=
  match r with
  | [] => [(key, value)]
  | (k, v) :: r' =>
      if String.eqb k key then (k, value) :: r' else (k, v) :: set r' key value
  end.

(** [record.values()]. *)
Definition values (r : Record) : list string := map snd r.

(** [dict.__eq__]: same size and same value under every key, whatever
    the order. *)
Definition eqb (r1 r2 : Record) : bool :=
  Nat.eqb (length r1) (length r2)
  && forallb (fun kv => match get r2 (fst kv) with
                        | Some v => String.eqb v (snd kv)
                        | None => false
                        end) r1.

(** [list.__eq__] on lists of records. *)
Fixpoint list_eqb (l1 l2 : list Record) : bool :=
  match l1, l2 with
  | [], [] => true
  | r1 :: l1', r2 :: l2' => eqb r1 r2 && list_eqb l1' l2'
  | _, _ => false
  end.

(** The records of the data model: exactly the fields of [categories],
    in that order. *)
Definition well_formed (r : Record) : Prop := map fst r = categories.

Definition make (name address phone : string) : Record :=
  [("name", name); ("address", address); ("phone number", phone)].

End Rec.

(** ** The file system *)

(** Paths are plain names: no directories, no normalisation. *)
Abbreviation FS := (gmap string string).

Module Os.

(** [os.path.isfile(path)]. *)
Definition isfile (path : string) : M FS bool :=
  fun fs => (Ret (bool_decide (is_Some (fs !! path))), fs).

(** [os.remove(path)]: a missing file raises [FileNotFoundError]. *)
Definition remove (path : string) : M FS unit :=
  fun fs =>
    match fs !! path with
    | Some _ => (Ret tt, delete path fs)
    | None => (Raise FileNotFoundError, fs)
    end.

(** [f.read()] of an existing file opened for reading. *)
Definition read (path : string) : M FS string :=
  fun fs => (Ret (default EmptyString (fs !! path)), fs).

(** [open(path, 'w')] followed by one write of [text]. *)
Definition write (path text : string) : M FS unit :=
  modify (insert path text).

(** [open(path, 'a')] followed by writes adding up to [text]: the file is
    created when absent. *)
Definition append (path text : string) : M FS unit :=
  modify (fun fs => <[path := default EmptyString (fs !! path) +:+ text]> fs).

Fixpoint drop (n : nat) (s : string) : string :=
  match n, s with
  | O, _ => s
  | S n', String _ s' => drop n' s'
  | S _, EmptyString => EmptyString
  end.

(** [open(path, 'r+')], [f.seek(0)] and one write of [text]: the text
    replaces the beginning of the file, and what the old contents had
    beyond it stays (nothing truncates). *)
Definition overwrite (path text : string) : M FS unit :=
  modify (fun fs =>
    <[path := text +:+ drop (String.length text)
                            (default EmptyString (fs !! path))]> fs).

End Os.

(** ** The csv module: writer and reader of the excel dialect *)

Module Csv.
Import Py.

(** Characters that make [csv.writer] quote a field under QUOTE_MINIMAL:
    the delimiter, the quote character and those of the line terminator. *)
Definition special (c : ascii) : bool :=
  Ascii.eqb c COMMA || Ascii.eqb c DQUOTE || Ascii.eqb c CR || Ascii.eqb c LF.

Fixpoint needs_quotes (s : string) : bool :=
  match s with
  | EmptyString => false
  | String c s' => special c || needs_quotes s'
  end.

(** Inside quotes a quote character is doubled. *)
Fixpoint double_quotes (s : string) : string :=
  match s with
  | EmptyString => EmptyString
  | String c s' =>
      if Ascii.eqb c DQUOTE then String c (String c (double_quotes s'))
      else String c (double_quotes s')
  end.

Definition quoted (s : string) : string :=
  String DQUOTE (double_quotes s +:+ chr DQUOTE).

Definition write_field (s : string) : string :=
  if needs_quotes s then quoted s else s.

Definition lineterminator : string := String CR (chr LF).

(** [writer.writerow(row)]: the text of one row.  A row made of a single
    empty field is written as a pair of quotes. *)
Definition writerow (row : list string) : string :=
  match row with
  | [EmptyString] => quoted EmptyString
  | _ => join (chr COMMA) (map write_field row)
  end +:+ lineterminator.

(** The states of the reader (the dialect has no escape character). *)
Inductive state : Type :=
  | START_RECORD
  | START_FIELD
  | IN_FIELD
  | IN_QUOTED_FIELD
  | QUOTE_IN_QUOTED_FIELD
  | EAT_CRNL.

Definition state_eqb (a b : state) : bool :=
  match a, b with
  | START_RECORD, START_RECORD | START_FIELD, START_FIELD
  | IN_FIELD, IN_FIELD | IN_QUOTED_FIELD, IN_QUOTED_FIELD
  | QUOTE_IN_QUOTED_FIELD, QUOTE_IN_QUOTED_FIELD | EAT_CRNL, EAT_CRNL => true
  | _, _ => false
  end.

Record parser : Type := Parser {
  st : state;
  field : string;          (* the field being read *)
  fields : list string     (* the fields of the record read so far *)
}.

Definition parse_reset : parser := Parser START_RECORD EmptyString [].

(** [csv.field_size_limit()], which the program leaves at its default. *)
Definition field_size_limit : N := 131072.

(** A text of at most [field_size_limit] characters. *)
Definition within_limit (s : string) : bool :=
  (N.of_nat (String.length s) <=? field_size_limit)%N.

(** [parse_add_char] raises [csv.Error] when the field being read has
    reached the limit, and else adds the character and moves to the state
    given. *)
Definition parse_add_char (p : parser) (c : ascii) (s : state) : res parser :=
  if (field_size_limit <=? N.of_nat (String.length (field p)))%N
  then Raise CsvError
  else Ret (Parser s (field p +:+ chr c) (fields p)).

Definition parse_save_field (p : parser) (s : state) : parser :=
  Parser s EmptyString (fields p ++ [field p]).

Definition set_state (p : parser) (s : state) : parser :=
  Parser s (field p) (fields p).

Definition is_newline (c : ascii) : bool := Ascii.eqb c LF || Ascii.eqb c CR.

(** The case [START_FIELD] of [parse_process_char], which the case
    [START_RECORD] falls through to.  [None] is the end-of-line mark the
    reader feeds after the last character of every line. *)
Definition process_start_field (p : parser) (c : option ascii) : res parser :=
  match c with
  | None => Ret (parse_save_field p START_RECORD)
  | Some x =>
      if is_newline x then Ret (parse_save_field p EAT_CRNL)
      else if Ascii.eqb x DQUOTE then Ret (set_state p IN_QUOTED_FIELD)
      else if Ascii.eqb x COMMA then Ret (parse_save_field p (st p))
      else parse_add_char p x IN_FIELD
  end.

(** [parse_process_char].  In [EAT_CRNL] an ordinary character raises
    [csv.Error]; [reader] below never gets there, since it feeds the mark
    right after each line feed. *)
Definition parse_process_char (p : parser) (c : option ascii) : res parser :=
  match st p with
  | START_RECORD =>
      match c with
      | None => Ret p
      | Some x =>
          if is_newline x then Ret (set_state p EAT_CRNL)
          else process_start_field (set_state p START_FIELD) c
      end
  | START_FIELD => process_start_field p c
  | IN_FIELD =>
      match c with
      | None => Ret (parse_save_field p START_RECORD)
      | Some x =>
          if is_newline x then Ret (parse_save_field p EAT_CRNL)
          else if Ascii.eqb x COMMA then Ret (parse_save_field p START_FIELD)
          else parse_add_char p x IN_FIELD
      end
  | IN_QUOTED_FIELD =>
      match c with
      | None => Ret p
      | Some x =>
          if Ascii.eqb x DQUOTE then Ret (set_state p QUOTE_IN_QUOTED_FIELD)
          else parse_add_char p x IN_QUOTED_FIELD
      end
  | QUOTE_IN_QUOTED_FIELD =>
      match c with
      | None => Ret (parse_save_field p START_RECORD)
      | Some x =>
          if Ascii.eqb x DQUOTE then parse_add_char p x IN_QUOTED_FIELD
          else if Ascii.eqb x COMMA then Ret (parse_save_field p START_FIELD)
          else if is_newline x then Ret (parse_save_field p EAT_CRNL)
          else parse_add_char p x IN_FIELD
      end
  | EAT_CRNL =>
      match c with
      | None => Ret (set_state p START_RECORD)
      | Some x => if is_newline x then Ret p else Raise CsvError
      end
  end.

(** What [Reader_iternext] does when the file has no more lines: a record
    left open inside a quoted field is returned as it stands. *)
Definition at_end_of_input (p : parser) : list (res (list string)) :=
  if negb (String.eqb (field p) EmptyString) || state_eqb (st p) IN_QUOTED_FIELD
  then [Ret (fields (parse_save_field p START_RECORD))]
  else [].

(** The rows [csv.reader(f)] yields one after the other for a file whose
    text (as the program sees it) is [text]; the reader is an iterator, so
    a row that raises comes after the rows before it, and ends the list.
    The file yields its lines, each ending with its line feed except
    perhaps the last; the reader feeds a line's characters and then the
    end-of-line mark, and returns the record when the mark leaves it in
    [START_RECORD].  [midline] tells that the current line has characters
    already. *)
Fixpoint reader (p : parser) (midline : bool) (text : string)
  : list (res (list string)) :=
  match text with
  | EmptyString =>
      if midline then
        match parse_process_char p None with
        | Raise e => [Raise e]
        | Ret p' =>
            if state_eqb (st p') START_RECORD then [Ret (fields p')]
            else at_end_of_input p'
        end
      else at_end_of_input p
  | String c rest =>
      match parse_process_char p (Some c) with
      | Raise e => [Raise e]
      | Ret p1 =>
          if Ascii.eqb c LF then
            match parse_process_char p1 None with
            | Raise e => [Raise e]
            | Ret p2 =>
                if state_eqb (st p2) START_RECORD
                then Ret (fields p2) :: reader parse_reset false rest
                else reader p2 false rest
            end
          else reader p1 true rest
      end
  end.

Definition read_rows (text : string) : list (res (list string)) :=
  reader parse_reset false text.

End Csv.

(** ** The json module: [dump] with [indent=4] and [load] *)

Module Json.
Import Py.

(** What [json.load] returns, within the model: [None], booleans, strings,
    lists and dictionaries with string keys (in insertion order). *)
#[warnings="-register-all"]
Inductive value : Type :=
  | Null
  | Bool (b : bool)
  | Str (s : string)
  | Arr (items : list value)
  | Obj (members : list (string * value)).

Definition BACKSLASH : ascii := "\"%char.

Definition hex_digit (n : N) : ascii :=
  match n with
  | 0 => "0" | 1 => "1" | 2 => "2" | 3 => "3" | 4 => "4" | 5 => "5"
  | 6 => "6" | 7 => "7" | 8 => "8" | 9 => "9" | 10 => "a" | 11 => "b"
  | 12 => "c" | 13 => "d" | 14 => "e" | _ => "f"
  end%N%char.

(** [encode_basestring_ascii] on one character: the short escapes, then
    [\u00XX] for what is outside the printable ASCII range. *)
Definition escape_char (c : ascii) : string :=
  let n := N_of_ascii c in
  if Ascii.eqb c DQUOTE then String BACKSLASH (chr DQUOTE)
  else if Ascii.eqb c BACKSLASH then String BACKSLASH (chr BACKSLASH)
  else if (n =? 8)%N then "\b"
  else if (n =? 12)%N then "\f"
  else if (n =? 10)%N then "\n"
  else if (n =? 13)%N then "\r"
  else if (n =? 9)%N then "\t"
  else if ((32 <=? n) && (n <=? 126))%N then chr c
  else "\u00" +:+ String (hex_digit (n / 16)) (chr (hex_digit (n mod 16))).

Fixpoint escape (s : string) : string :=
  match s with
  | EmptyString => EmptyString
  | String c s' => escape_char c +:+ escape s'
  end.

Definition encode_string (s : string) : string :=
  String DQUOTE (escape s +:+ chr DQUOTE).

Fixpoint spaces (n : nat) : string :=
  match n with
  | O => EmptyString
  | S n' => String " " (spaces n')
  end.

(** A line feed and the indentation of nesting level [level]. *)
Definition newline_indent (level : nat) : string :=
  String LF (spaces (4 * level)).

(** [json.dumps(v, indent=4)], at nesting level [level]. *)
Fixpoint encode (level : nat) (v : value) : string :=
  match v with
  | Null => "null"
  | Bool true => "true"
  | Bool false => "false"
  | Str s => encode_string s
  | Arr [] => "[]"
  | Arr items =>
      "[" +:+ newline_indent (S level)
      +:+ join ("," +:+ newline_indent (S level)) (map (encode (S level)) items)
      +:+ newline_indent level +:+ "]"
  | Obj [] => "{}"
  | Obj members =>
      "{" +:+ newline_indent (S level)
      +:+ join ("," +:+ newline_indent (S level))
            (map (fun kv => encode_string (fst kv) +:+ ": "
                            +:+ encode (S level) (snd kv)) members)
      +:+ newline_indent level +:+ "}"
  end.

Definition dumps (v : value) : string := encode 0 v.

(** *** Decoding *)

Definition is_ws (c : ascii) : bool :=
  Ascii.eqb c " " || Ascii.eqb c "009" || Ascii.eqb c LF || Ascii.eqb c CR.

Fixpoint skip_ws (s : string) : string :=
  match s with
  | EmptyString => EmptyString
  | String c s' => if is_ws c then skip_ws s' else s
  end.

Definition hex_value (c : ascii) : option N :=
  let n := N_of_ascii c in
  if ((48 <=? n) && (n <=? 57))%N then Some (n - 48)%N
  else if ((97 <=? n) && (n <=? 102))%N then Some (n - 87)%N
  else if ((65 <=? n) && (n <=? 70))%N then Some (n - 55)%N
  else None.

(** The four hexadecimal digits of a [\u] escape. *)
Definition decode_uxxxx (a b c d : ascii) : res ascii :=
  match hex_value a, hex_value b, hex_value c, hex_value d with
  | Some x, Some y, Some z, Some w =>
      let n := (((x * 16 + y) * 16 + z) * 16 + w)%N in
      if (n <=? 255)%N then Ret (ascii_of_N n) else Raise Unrepresentable
  | _, _, _, _ => Raise JSONDecodeError
  end.

(** [scanstring] (strict) from just after the opening quote: the decoded
    string and the text after the closing quote. *)
Fixpoint scanstring (s : string) : res (string * string) :=
  match s with
  | EmptyString => Raise JSONDecodeError
  | String c s' =>
      if Ascii.eqb c DQUOTE then Ret (EmptyString, s')
      else if Ascii.eqb c BACKSLASH then
        match s' with
        | EmptyString => Raise JSONDecodeError
        | String e s'' =>
            let simple (x : ascii) :=
              match scanstring s'' with
              | Ret (str, rest) => Ret (String x str, rest)
              | Raise err => Raise err
              end in
            if Ascii.eqb e DQUOTE then simple DQUOTE
            else if Ascii.eqb e BACKSLASH then simple BACKSLASH
            else if Ascii.eqb e "/" then simple "/"%char
            else if Ascii.eqb e "b" then simple "008"%char
            else if Ascii.eqb e "f" then simple "012"%char
            else if Ascii.eqb e "n" then simple LF
            else if Ascii.eqb e "r" then simple CR
            else if Ascii.eqb e "t" then simple "009"%char
            else if Ascii.eqb e "u" then
              match s'' with
              | String h1 (String h2 (String h3 (String h4 s5))) =>
                  match decode_uxxxx h1 h2 h3 h4 with
                  | Ret x =>
                      match scanstring s5 with
                      | Ret (str, rest) => Ret (String x str, rest)
                      | Raise err => Raise err
                      end
                  | Raise err => Raise err
                  end
              | _ => Raise JSONDecodeError
              end
            else Raise JSONDecodeError
        end
      else if (N_of_ascii c <? 32)%N then Raise JSONDecodeError
      else match scanstring s' with
           | Ret (str, rest) => Ret (String c str, rest)
           | Raise err => Raise err
           end
  end.

(** [s.startswith(prefix)] and the text after the prefix. *)
Fixpoint strip_prefix (prefix s : string) : option string :=
  match prefix, s with
  | EmptyString, _ => Some s
  | String a p', String b s' =>
      if Ascii.eqb a b then strip_prefix p' s' else None
  | String _ _, EmptyString => None
  end.

Definition is_digit (c : ascii) : bool :=
  ((48 <=? N_of_ascii c) && (N_of_ascii c <=? 57))%N.

(** The scalar tokens other than strings; numbers leave the model. *)
Definition scan_literal (s : string) : res (value * string) :=
  match strip_prefix "null" s, strip_prefix "true" s, strip_prefix "false" s with
  | Some rest, _, _ => Ret (Null, rest)
  | _, Some rest, _ => Ret (Bool true, rest)
  | _, _, Some rest => Ret (Bool false, rest)
  | _, _, _ =>
      match s with
      | String c s' =>
          if is_digit c then Raise Unrepresentable
          else match strip_prefix "NaN" s, strip_prefix "Infinity" s,
                     strip_prefix "-Infinity" s with
               | None, None, None =>
                   match s' with
                   | String d _ =>
                       if Ascii.eqb c "-" && is_digit d
                       then Raise Unrepresentable else Raise JSONDecodeError
                   | EmptyString => Raise JSONDecodeError
                   end
               | _, _, _ => Raise Unrepresentable
               end
      | EmptyString => Raise JSONDecodeError
      end
  end.

(** Building a [dict] from the pairs of an object: a repeated key keeps
    its first place and takes the last value. *)
Fixpoint dict_set (d : list (string * value)) (key : string) (v : value)
  : list (string * value) :=
  match d with
  | [] => [(key, v)]
  | (k, x) :: d' =>
      if String.eqb k key then (k, v) :: d' else (k, x) :: dict_set d' key v
  end.

(** [scan_once], [JSONObject] and [JSONArray].  [fuel] bounds the depth
    of the calls; of two calls in a row one at least consumes a
    character, so twice the length of the text is enough (see
    [loads_fuel]). *)
Fixpoint scan_once (fuel : nat) (s : string) : res (value * string) :=
  match fuel with
  | O => Raise RecursionError
  | S fuel' =>
      match s with
      | EmptyString => Raise JSONDecodeError
      | String c s' =>
          if Ascii.eqb c DQUOTE then
            match scanstring s' with
            | Ret (str, rest) => Ret (Str str, rest)
            | Raise e => Raise e
            end
          else if Ascii.eqb c "{" then
            match skip_ws s' with
            | String c' rest =>
                if Ascii.eqb c' "}" then Ret (Obj [], rest)
                else parse_members fuel' [] (skip_ws s')
            | EmptyString => Raise JSONDecodeError
            end
          else if Ascii.eqb c "[" then
            match skip_ws s' with
            | String c' rest =>
                if Ascii.eqb c' "]" then Ret (Arr [], rest)
                else parse_items fuel' [] (skip_ws s')
            | EmptyString => Raise JSONDecodeError
            end
          else scan_literal s
      end
  end

(** The members of an object from the quote of a key on, [acc] being the
    dictionary built so far. *)
with parse_members (fuel : nat) (acc : list (string * value)) (s : string)
  : res (value * string) :=
  match fuel with
  | O => Raise RecursionError
  | S fuel' =>
      match s with
      | String c s' =>
          if Ascii.eqb c DQUOTE then
            match scanstring s' with
            | Ret (key, rest) =>
                match skip_ws rest with
                | String c1 rest1 =>
                    if Ascii.eqb c1 ":" then
                      match scan_once fuel' (skip_ws rest1) with
                      | Ret (v, rest2) =>
                          let acc' := dict_set acc key v in
                          match skip_ws rest2 with
                          | String c2 rest3 =>
                              if Ascii.eqb c2 "}" then Ret (Obj acc', rest3)
                              else if Ascii.eqb c2 ","
                              then parse_members fuel' acc' (skip_ws rest3)
                              else Raise JSONDecodeError
                          | EmptyString => Raise JSONDecodeError
                          end
                      | Raise e => Raise e
                      end
                    else Raise JSONDecodeError
                | EmptyString => Raise JSONDecodeError
                end
            | Raise e => Raise e
            end
          else Raise JSONDecodeError
      | EmptyString => Raise JSONDecodeError
      end
  end

(** The items of an array from the first character of an item on. *)
with parse_items (fuel : nat) (acc : list value) (s : string)
  : res (value * string) :=
  match fuel with
  | O => Raise RecursionError
  | S fuel' =>
      match scan_once fuel' s with
      | Ret (v, rest) =>
          match skip_ws rest with
          | String c rest1 =>
              if Ascii.eqb c "]" then Ret (Arr (acc ++ [v]), rest1)
              else if Ascii.eqb c ","
              then parse_items fuel' (acc ++ [v]) (skip_ws rest1)
              else Raise JSONDecodeError
          | EmptyString => Raise JSONDecodeError
          end
      | Raise e => Raise e
      end
  end.

(** [json.loads(text)]: one value, with white space around it and nothing
    else. *)
Definition loads (text : string) : res value :=
  match scan_once (S (2 * String.length text)) (skip_ws text) with
  | Ret (v, rest) =>
      match skip_ws rest with
      | EmptyString => Ret v
      | String _ _ => Raise JSONDecodeError
      end
  | Raise e => Raise e
  end.

End Json.

(** ** fnmatch: shell-style patterns *)

Module Fnmatch.
Import Py.

(** What [fnmatch.translate] turns a pattern into: [*], [?], a character
    class [[seq]] or [[!seq]], or a character standing for itself. *)
Inductive token : Type :=
  | Star
  | Any
  | Class (negated : bool) (body : string)
  | Lit (c : ascii).

(** The text up to the first closing bracket, and the text after it. *)
Fixpoint until_bracket (s : string) : option (string * string) :=
  match s with
  | EmptyString => None
  | String c s' =>
      if Ascii.eqb c "]" then Some (EmptyString, s')
      else match until_bracket s' with
           | Some (stuff, rest) => Some (String c stuff, rest)
           | None => None
           end
  end.

(** From just after an opening bracket: a leading [!] and then a leading
    closing bracket belong to the class; the class ends at the next
    closing bracket.  Returns whether the class is negated, its body and
    the pattern after it, or [None] when no bracket closes it. *)
Definition find_class (s : string) : option (bool * string * string) :=
  let body (neg : bool) (s1 : string) :=
    match s1 with
    | String c s2 =>
        if Ascii.eqb c "]" then
          match until_bracket s2 with
          | Some (stuff, rest) => Some (neg, String c stuff, rest)
          | None => None
          end
        else match until_bracket s1 with
             | Some (stuff, rest) => Some (neg, stuff, rest)
             | None => None
             end
    | EmptyString => None
    end in
  match s with
  | String c s1 => if Ascii.eqb c "!" then body true s1 else body false s
  | EmptyString => None
  end.

(** [translate]: an opening bracket that nothing closes stands for
    itself.  [fuel] bounds the number of tokens; the length of the
    pattern is enough (see [translate_aux_fuel]). *)
Fixpoint translate_aux (fuel : nat) (pat : string) : list token :=
  match fuel with
  | O => []
  | S fuel' =>
      match pat with
      | EmptyString => []
      | String c rest =>
          if Ascii.eqb c "*" then Star :: translate_aux fuel' rest
          else if Ascii.eqb c "?" then Any :: translate_aux fuel' rest
          else if Ascii.eqb c "[" then
            match find_class rest with
            | Some (neg, stuff, rest') =>
                Class neg stuff :: translate_aux fuel' rest'
            | None => Lit c :: translate_aux fuel' rest
            end
          else Lit c :: translate_aux fuel' rest
      end
  end.

Definition translate (pat : string) : list token :=
  translate_aux (String.length pat) pat.

Definition in_range (lo hi c : ascii) : bool :=
  ((N_of_ascii lo <=? N_of_ascii c) && (N_of_ascii c <=? N_of_ascii hi))%N.

(** Membership in the body of a class: [lo-hi] is a range when a
    character follows the hyphen, every other character stands for
    itself. *)
Fixpoint class_mem (c : ascii) (body : string) : bool :=
  match body with
  | EmptyString => false
  | String lo rest =>
      match rest with
      | String d (String hi rest') =>
          if Ascii.eqb d "-" then in_range lo hi c || class_mem c rest'
          else Ascii.eqb c lo || class_mem c rest
      | _ => Ascii.eqb c lo || class_mem c rest
      end
  end.

(** Matching the whole of [s] against the tokens ([re.match] of the
    translated pattern, which ends with [\Z]). *)
Fixpoint match_tokens (ts : list token) (s : string) : bool :=
  match ts with
  | [] => match s with EmptyString => true | String _ _ => false end
  | Star :: ts' =>
      (fix star (s : string) : bool :=
         match_tokens ts' s
         || match s with
            | EmptyString => false
            | String _ s' => star s'
            end) s
  | Any :: ts' =>
      match s with
      | EmptyString => false
      | String _ s' => match_tokens ts' s'
      end
  | Class neg body :: ts' =>
      match s with
      | EmptyString => false
      | String x s' => xorb neg (class_mem x body) && match_tokens ts' s'
      end
  | Lit c :: ts' =>
      match s with
      | EmptyString => false
      | String x s' => Ascii.eqb x c && match_tokens ts' s'
      end
  end.

(** [fnmatch.fnmatch(name, pat)]. *)
Definition fnmatch (name pat : string) : bool :=
  match_tokens (translate pat) name.

End Fnmatch.

(** ** Formats *)

(** [class Format]: a name and the two methods every format provides. *)
Record Format : Type := {
  getName : string;
  write : Record -> string -> M FS bool;
  getRecords : string -> M FS (list Record)
}.

(** Turning a plain outcome into a computation. *)
Definition lift {S A : Type} (r : res A) : M S A :=
  match r with
  | Ret a => ret a
  | Raise e => raise e
  end.

Module CSVFormat.

(** [CSVFormat.write]. *)
Definition write (record : Record) (fName : string) : M FS bool :=
  let* exists_ := Os.isfile fName in
  let* _ := Os.append fName
              ((if negb exists_ then Csv.writerow Rec.categories
                else EmptyString)
               +:+ Csv.writerow (Rec.values record)) in
  ret true.

(** The loop [for index, value in enumerate(row)] over one row;
    [Record.categories[index]] raises [IndexError] from the fourth value
    on. *)
Fixpoint fill (record : Record) (index : nat) (row : list string)
  : res Record :=
  match row with
  | [] => Ret record
  | value :: row' =>
      match nth_error Rec.categories index with
      | Some key => fill (Rec.set record key value) (S index) row'
      | None => Raise IndexError
      end
  end.

(** The loop [for row in reader]: a row the reader raises on ends it. *)
Fixpoint collect (records : list Record) (rows : list (res (list string)))
  : res (list Record) :=
  match rows with
  | [] => Ret records
  | Raise e :: _ => Raise e
  | Ret row :: rows' =>
      match fill [] 0 row with
      | Ret record => collect (records ++ [record]) rows'
      | Raise e => Raise e
      end
  end.

(** [CSVFormat.getRecords]; [next(reader)] raises [StopIteration] on a
    file without a first row, and [csv.Error] when the first row does. *)
Definition getRecords (fName : string) : M FS (list Record) :=
  let* exists_ := Os.isfile fName in
  if exists_ then
    let* text := Os.read fName in
    match Csv.read_rows (Py.universal_newlines text) with
    | [] => raise StopIteration
    | Raise e :: _ => raise e
    | Ret _header :: rows => lift (collect [] rows)
    end
  else ret [].

End CSVFormat.

Module JSONFormat.
Import Json.

(** A record as the JSON object [json.dump] makes of it. *)
Definition of_record (r : Record) : value :=
  Obj (map (fun kv => (fst kv, Str (snd kv))) r).

(** [data["records"].append(record)]. *)
Fixpoint append_in (members : list (string * value)) (record : Record)
  : res (list (string * value)) :=
  match members with
  | [] => Raise KeyError
  | (k, v) :: members' =>
      if String.eqb k "records" then
        match v with
        | Arr items => Ret ((k, Arr (items ++ [of_record record])) :: members')
        | _ => Raise AttributeError
        end
      else match append_in members' record with
           | Ret m => Ret ((k, v) :: m)
           | Raise e => Raise e
           end
  end.

Definition append_record (data : value) (record : Record) : res value :=
  match data with
  | Obj members =>
      match append_in members record with
      | Ret m => Ret (Obj m)
      | Raise e => Raise e
      end
  | _ => Raise TypeError
  end.

(** [JSONFormat.write]. *)
Definition write (record : Record) (fName : string) : M FS bool :=
  let* exists_ := Os.isfile fName in
  let* _ := if negb exists_
            then Os.write fName (dumps (Obj [("records", Arr [])]))
            else ret tt in
  let* text := Os.read fName in
  let* data := lift (loads (Py.universal_newlines text)) in
  let* data' := lift (append_record data record) in
  let* _ := Os.overwrite fName (dumps data') in
  ret true.

(** The string values of the members of an object. *)
Fixpoint string_members (members : list (string * value)) : res Record :=
  match members with
  | [] => Ret []
  | (k, Str s) :: members' =>
      match string_members members' with
      | Ret r => Ret ((k, s) :: r)
      | Raise e => Raise e
      end
  | _ :: _ => Raise Unrepresentable
  end.

(** [Record(record)] for one element of the list. *)
Definition to_record (v : value) : res Record :=
  match v with
  | Obj members => string_members members
  | Arr [] => Ret []
  | Arr (_ :: _) => Raise Unrepresentable
  | Str EmptyString => Ret []
  | Str (String _ _) => Raise ValueError
  | Null | Bool _ => Raise TypeError
  end.

Fixpoint to_records (items : list value) : res (list Record) :=
  match items with
  | [] => Ret []
  | v :: items' =>
      match to_record v with
      | Ret r =>
          match to_records items' with
          | Ret rs => Ret (r :: rs)
          | Raise e => Raise e
          end
      | Raise e => Raise e
      end
  end.

(** [[Record(record) for record in data[key]]] with
    [key = list(data.keys())[0]].  Iterating over a string yields its
    characters and over a dictionary its keys. *)
Definition records_of (data : value) : res (list Record) :=
  match data with
  | Obj [] => Raise IndexError
  | Obj ((_, v) :: _) =>
      match v with
      | Arr items => to_records items
      | Str s => to_records (map Str (Py.chars s))
      | Obj members => to_records (map (fun kv => Str (fst kv)) members)
      | Null | Bool _ => Raise TypeError
      end
  | _ => Raise AttributeError
  end.

(** [JSONFormat.getRecords]. *)
Definition getRecords (fName : string) : M FS (list Record) :=
  let* exists_ := Os.isfile fName in
  if exists_ then
    let* text := Os.read fName in
    let* data := lift (loads (Py.universal_newlines text)) in
    lift (records_of data)
  else ret [].

End JSONFormat.

(** The two instances [CSVFormat()] and [JSONFormat()]. *)
Definition csv_format : Format :=
  {| getName := "csv";
     write := CSVFormat.write;
     getRecords := CSVFormat.getRecords |}.

Definition json_format : Format :=
  {| getName := "json";
     write := JSONFormat.write;
     getRecords := JSONFormat.getRecords |}.

(** ** The database *)

(** The attributes of a [Database] object ([formats] is the same registry
    in every object, see [configFormats]). *)
Record Database : Type := {
  currentFormat : string;
  fileName : string;
  dataFile : string
}.

(** The state the methods run in: the object and the file system. *)
Record World : Type := {
  self : Database;
  disk : FS
}.

(** A computation on the file system, run from a method. *)
Definition on_disk {A} (m : M FS A) : M World A :=
  fun w => let (r, fs) := m (disk w) in (r, {| self := self w; disk := fs |}).

Definition get_self : M World Database := fun w => (Ret (self w), w).

Definition set_self (db : Database) : M World unit :=
  fun w => (Ret tt, {| self := db; disk := disk w |}).

(** [Database.__configFormats]: the dictionary of formats, in insertion
    order. *)
Definition configFormats : list (string * Format) :=
  [("csv", csv_format); ("json", json_format)].

(** [name in self.formats.keys()]. *)
Definition supported (name : string) : bool :=
  existsb (fun kf => String.eqb (fst kf) name) configFormats.

(** [self.formats[name]]. *)
Definition formats {S} (name : string) : M S Format :=
  match find (fun kf => String.eqb (fst kf) name) configFormats with
  | Some kf => ret (snd kf)
  | None => raise KeyError
  end.

(** [Database.__init__]: an unsupported format is reported on the console
    and the object is built all the same. *)
Definition init (fileName fileFormat : string) : Database :=
  {| currentFormat := fileFormat;
     fileName := fileName;
     dataFile := fileName +:+ "." +:+ fileFormat |}.

(** [Database.add]. *)
Definition add (newRecord : Record) : M World bool :=
  let* db := get_self in
  let* format := formats (currentFormat db) in
  on_disk (write format newRecord (dataFile db)).

(** The call [self.add(record, newFormat)] of [convert]: [add] takes one
    argument besides [self], so Python raises [TypeError] before running
    its body. *)
Definition add_with_format (record : Record) (newFormat : string)
  : M World bool :=
  raise TypeError.

(** [Database.importRecords]. *)
Definition importRecords (fName : string) : M World bool :=
  let* db := get_self in
  match nth_error (Py.split Py.DOT (Py.strip fName)) 1 with
  | None => raise IndexError
  | Some format =>
      if supported format then
        let* source := formats format in
        let* records := on_disk (getRecords source fName) in
        let* _ := for_each records (fun record =>
                    let* current := formats (currentFormat db) in
                    let* _ := on_disk (write current record (dataFile db)) in
                    ret tt) in
        ret true
      else ret false
  end.

(** [Database.convert]. *)
Definition convert (newFormat : string) : M World bool :=
  let* db := get_self in
  if String.eqb newFormat (currentFormat db) then ret true
  else
    let* exists_ := on_disk (Os.isfile (dataFile db)) in
    if negb exists_ then
      let* _ := set_self {| currentFormat := newFormat;
                            fileName := fileName db;
                            dataFile := dataFile db |} in
      ret true
    else if supported newFormat then
      let* current := formats (currentFormat db) in
      let* records := on_disk (getRecords current (dataFile db)) in
      let newFile := fileName db +:+ "." +:+ newFormat in
      let* stale := on_disk (Os.isfile newFile) in
      let* _ := if stale then on_disk (Os.remove newFile) else ret tt in
      let* _ := for_each records (fun record =>
                  let* _ := add_with_format record newFormat in ret tt) in
      let* target := formats newFormat in
      let* written := on_disk (getRecords target newFile) in
      if Rec.list_eqb written records then
        let* _ := on_disk (Os.remove (dataFile db)) in
        let* _ := set_self {| currentFormat := newFormat;
                              fileName := fileName db;
                              dataFile := newFile |} in
        ret true
      else
        let* _ := on_disk (Os.remove newFile) in
        ret false
    else ret false.

(** [Database.getRecords]. *)
Definition getRecords_db : M World (list Record) :=
  let* db := get_self in
  let* format := formats (currentFormat db) in
  on_disk (getRecords format (dataFile db)).

(** [Database.clean]. *)
Definition clean : M World unit :=
  let* db := get_self in
  let* exists_ := on_disk (Os.isfile (dataFile db)) in
  if exists_ then on_disk (Os.remove (dataFile db)) else ret tt.

(** The inner loop of [filter], [for subItem in searchItem], over the
    characters of the pattern. *)
Fixpoint filter_sub_items (entry : Record) (value : string)
    (subItems : list string) (filterResults : list Record) : list Record :=
  match subItems with
  | [] => filterResults
  | subItem :: subItems' =>
      filter_sub_items entry value subItems'
        (if String.eqb value subItem then filterResults ++ [entry]
         else filterResults)
  end.

(** The loop [for entry in self.getRecords()] of [filter];
    [entry[valueSelected]] raises [KeyError] on a record without the
    field. *)
Fixpoint filter_entries (entries : list Record)
    (valueSelected searchItem : string) (filterResults : list Record)
  : res (list Record) :=
  match entries with
  | [] => Ret filterResults
  | entry :: entries' =>
      match Rec.get entry valueSelected with
      | None => Raise KeyError
      | Some value =>
          filter_entries entries' valueSelected searchItem
            (if Fnmatch.fnmatch value searchItem then filterResults ++ [entry]
             else if Py.contains Py.COMMA searchItem
             then filter_sub_items entry value (Py.chars searchItem)
                    filterResults
             else filterResults)
      end
  end.

(** [Database.filter]. *)
Definition filter (valueSelected searchItem : string)
  : M World (list Record) :=
  let* entries := getRecords_db in
  lift (filter_entries entries valueSelected searchItem []).

(** ** Notions used by the properties *)

(** The invariant of the data model: the path of the data file is the
    base name, a dot and the current format. *)
Definition dataFile_derived (db : Database) : Prop :=
  dataFile db = fileName db +:+ "." +:+ currentFormat db.

(** A field value [CSVFormat] brings back unchanged: one without a
    carriage return (the file is written with [newline=''] and read
    without, so a carriage return comes back as a line feed) and within
    the field size limit of the reader. *)
Definition csv_safe (value : string) : Prop :=
  Py.contains Py.CR value = false /\ Csv.within_limit value = true.

Definition record_eq_dec (r1 r2 : Record) : {r1 = r2} + {r1 <> r2} :=
  decide (r1 = r2).

(** A database on a file system. *)
Definition world (db : Database) (fs : FS) : World :=
  {| self := db; disk := fs |}.

(** The record of the unit tests, and a csv data file holding it. *)
Definition john_doe : Record :=
  Rec.make "John Doe" "123 Street street" "555-5555".

Definition csv_text (records : list Record) : string :=
  Csv.writerow Rec.categories
  +:+ fold_right (fun r text => Csv.writerow (Rec.values r) +:+ text)
        EmptyString records.

(** The document [JSONFormat] keeps in a file: one key and the list of
    the records under it. *)
Definition document (rs : list Record) : Json.value :=
  Json.Obj [("records", Json.Arr (map JSONFormat.of_record rs))].

(** The text of the data file of a format after the records [rs] were
    written to it one by one. *)
Definition stored_text (name : string) (rs : list Record) : string :=
  if String.eqb name "csv" then csv_text rs
  else Json.dumps (document rs).

(** The file at [path] holds the records [rs]: it is absent when there
    are none, and else has the text the format writes for them. *)
Definition stored (name path : string) (rs : list Record) (fs : FS) : Prop :=
  match rs with
  | [] => fs !! path = None
  | _ :: _ => fs !! path = Some (stored_text name rs)
  end.

(** A record the format of that name brings back as it was: one of the
    data model, and for the csv format one without carriage returns. *)
Definition readable (name : string) (r : Record) : Prop :=
  Rec.well_formed r /\ (name = "csv" -> Forall csv_safe (Rec.values r)).

(** [n] calls of [add], one per record, and what each returned. *)
Fixpoint add_all (records : list Record) : M World (list bool) :=
  match records with
  | [] => ret []
  | record :: records' =>
      let* ok := add record in
      let* oks := add_all records' in
      ret (ok :: oks)
  end.

(** A computation that leaves the attributes of the object as they
    were. *)
Definition keeps_self {A} (m : M World A) : Prop :=
  forall w, self (snd (m w)) = self w.

Section Notions.
Import Py Csv Json Fnmatch.

(** The tokens of a pattern without an opening bracket. *)
Definition plain_token (c : ascii) : token :=
  if Ascii.eqb c "*" then Star else if Ascii.eqb c "?" then Any else Lit c.

(** The parser at the start of a field. *)
Definition at_start (s : state) : Prop := s = START_RECORD \/ s = START_FIELD.

(** The text of a row without its line terminator. *)
Definition line (row : list string) : string :=
  match row with
  | [EmptyString] => quoted EmptyString
  | _ => join (chr COMMA) (map write_field row)
  end.

(** The text of one member of a record. *)
Definition member_text (kv : string * string) : string :=
  encode_string (fst kv) +:+ ": " +:+ encode_string (snd kv).

(** The separator between the members of an object or the items of an
    array at nesting level [level]. *)
Definition separator (level : nat) : string := "," +:+ newline_indent level.

(** Adding members under fresh keys to a dictionary. *)
Definition add_members (acc : list (string * value)) (r : Record)
  : list (string * value) :=
  fold_left (fun d kv => dict_set d (fst kv) (Str (snd kv))) r acc.

(** A result of the decoder on the text [s] that is not a want of fuel
    and, when it is a value, leaves less text than [s]. *)
Definition scan_ok (result : res (value * string)) (s : string) : Prop :=
  result <> Raise RecursionError
  /\ forall v rest, result = Ret (v, rest) ->
                    String.length rest < String.length s.

End Notions.

(** ** Notions used by the further properties *)

(** A computation on the file system that leaves every file outside [P]
    as it was, whatever it returns or raises. *)
Definition touches_only {A} (P : string -> Prop) (m : M FS A) : Prop :=
  forall fs p, ~ P p -> snd (m fs) !! p = fs !! p.

(** The same for a method. *)
Definition changes_only {A} (P : string -> Prop) (m : M World A) : Prop :=
  forall w p, ~ P p -> disk (snd (m w)) !! p = disk w !! p.

(** A computation that leaves its state as it was. *)
Definition read_only {S A} (m : M S A) : Prop :=
  forall s, snd (m s) = s.

(** Whether the field of a record matches a pattern as a glob; a record
    without the field does not. *)
Definition matches (field pat : string) (e : Record) : bool :=
  match Rec.get e field with
  | Some v => Fnmatch.fnmatch v pat
  | None => false
  end.

(** A pattern without any of the special characters of [fnmatch]. *)
Definition literal (pat : string) : Prop :=
  Py.contains "*" pat = false /\ Py.contains "?" pat = false
  /\ Py.contains "[" pat = false.

(** The text [csv.writer] makes of rows written one after the other. *)
Definition rows_text (rows : list (list string)) : string :=
  fold_right (fun row text => Csv.writerow row +:+ text) EmptyString rows.


(** [f"{s:<15}"] for the width given: spaces are added on the right up to
    the width, and a longer text is kept whole. *)
Definition ljust (width : nat) (s : string) : string :=
  s +:+ Json.spaces (width - String.length s).

(** The loop of [Record.__str__]: one line per field. *)
Definition str_lines (r : Record) : string :=
  fold_left (fun output kv =>
               output +:+ ljust 15 (fst kv +:+ ":") +:+ " " +:+ snd kv
               +:+ Py.chr Py.LF)
            r EmptyString.

(** [Record.__str__]. *)
Definition Record_str (r : Record) : string := Py.strip (str_lines r).

(** ** Basic facts *)

Lemma world_eta (w : World) : {| self := self w; disk := disk w |} = w.
Proof. by destruct w. Qed.

Lemma supported_cases (name : string) :
  supported name = true -> name = "csv" \/ name = "json".
Proof.
  unfold supported; simpl. rewrite !orb_true_iff.
  intros [H | [H | H]]; try discriminate.
  - left. symmetry. by apply String.eqb_eq.
  - right. symmetry. by apply String.eqb_eq.
Qed.

Lemma isfile_None (path : string) (fs : FS) :
  fs !! path = None -> Os.isfile path fs = (Ret false, fs).
Proof.
  intros H. unfold Os.isfile. rewrite H.
  rewrite bool_decide_eq_false_2; [done | by intros [? ?]].
Qed.

Lemma isfile_Some (path text : string) (fs : FS) :
  fs !! path = Some text -> Os.isfile path fs = (Ret true, fs).
Proof.
  intros H. unfold Os.isfile. rewrite H.
  rewrite bool_decide_eq_true_2; [done | by eexists].
Qed.

Lemma remove_Some (path text : string) (fs : FS) :
  fs !! path = Some text -> Os.remove path fs = (Ret tt, delete path fs).
Proof. intros H. unfold Os.remove. by rewrite H. Qed.

(** Running a sequence of two computations. *)
Lemma bind_Ret {S A B} (m : M S A) (k : A -> M S B) (s s' : S) (a : A) :
  m s = (Ret a, s') -> bind m k s = k a s'.
Proof. intros H. unfold bind. by rewrite H. Qed.

Lemma bind_Raise {S A B} (m : M S A) (k : A -> M S B) (s s' : S) (e : exn) :
  m s = (Raise e, s') -> bind m k s = (Raise e, s').
Proof. intros H. unfold bind. by rewrite H. Qed.

Lemma on_disk_eq {A} (m : M FS A) (db : Database) (fs fs' : FS) (r : res A) :
  m fs = (r, fs') -> on_disk m (world db fs) = (r, world db fs').
Proof. intros H. unfold on_disk, world; simpl. by rewrite H. Qed.

Lemma get_self_eq (db : Database) (fs : FS) :
  get_self (world db fs) = (Ret db, world db fs).
Proof. reflexivity. Qed.

Lemma append_inj_l (p a b : string) : p +:+ a = p +:+ b -> a = b.
Proof. induction p as [| c p IH]; simpl; [done | intros [= H]; auto]. Qed.

(** ** Conversion *)

(** C9. Converting to the format that is already current returns [True]
    and changes neither the object (its format, its data file path) nor
    any file. *)
Theorem convert_same_format_noop (w : World) :
  convert (currentFormat (self w)) w = (Ret true, w).
Proof.
  unfold convert, bind, get_self, ret.
  by rewrite String.eqb_refl.
Qed.

(** The constructor establishes the invariant. *)
Lemma init_dataFile_derived (name fmt : string) :
  dataFile_derived (init name fmt).
Proof. reflexivity. Qed.

(** C3. When no data file exists, [convert] to another format switches
    [currentFormat] and leaves [dataFile] as it was: the invariant
    [dataFile = fileName + "." + currentFormat] holds before the call and
    not after it. *)
Theorem convert_without_file_breaks_invariant (w : World) (newFormat : string) :
  dataFile_derived (self w) ->
  disk w !! dataFile (self w) = None ->
  newFormat <> currentFormat (self w) ->
  exists w', convert newFormat w = (Ret true, w')
             /\ currentFormat (self w') = newFormat
             /\ dataFile (self w') = dataFile (self w)
             /\ ~ dataFile_derived (self w').
Proof.
  intros Hinv Hnone Hne.
  destruct w as [db fs]; simpl in *. fold (world db fs).
  eexists. split.
  - unfold convert. rewrite (bind_Ret _ _ _ _ _ (get_self_eq db fs)).
    destruct (String.eqb_spec newFormat (currentFormat db)) as [E | _];
      [exfalso; by apply Hne |].
    rewrite (bind_Ret _ _ _ _ _ (on_disk_eq _ db _ _ _ (isfile_None _ _ Hnone))).
    reflexivity.
  - simpl. repeat split.
    unfold dataFile_derived; simpl. rewrite Hinv.
    intros E. apply append_inj_l, append_inj_l in E. congruence.
Qed.

Lemma convert_without_file_breaks_invariant_witness :
  exists w', convert "json" (world (init "db" "csv") ∅) = (Ret true, w')
             /\ currentFormat (self w') = "json"
             /\ dataFile (self w') = "db.csv"
             /\ ~ dataFile_derived (self w').
Proof.
  apply (convert_without_file_breaks_invariant (world (init "db" "csv") ∅) "json").
  - reflexivity.
  - reflexivity.
  - discriminate.
Defined.

Lemma formats_csv {S} (s : S) : formats "csv" s = (Ret csv_format, s).
Proof. reflexivity. Qed.

Lemma formats_json {S} (s : S) : formats "json" s = (Ret json_format, s).
Proof. reflexivity. Qed.

Lemma formats_supported {S} (name : string) (s : S) :
  supported name = true -> exists f, formats name s = (Ret f, s).
Proof.
  intros H. destruct (supported_cases _ H) as [-> | ->]; eexists; reflexivity.
Qed.

(** What a successful [Database.getRecords] consists of. *)
Lemma getRecords_db_inv (db : Database) (fs : FS) (records : list Record)
    (w' : World) :
  getRecords_db (world db fs) = (Ret records, w') ->
  exists format,
    formats (currentFormat db) (world db fs) = (Ret format, world db fs)
    /\ on_disk (getRecords format (dataFile db)) (world db fs)
       = (Ret records, w').
Proof.
  unfold getRecords_db. rewrite (bind_Ret _ _ _ _ _ (get_self_eq db fs)).
  unfold formats.
  destruct (find _ configFormats) as [kf |]; [| discriminate].
  intros H. exists (snd kf). split; [reflexivity |].
  by rewrite (bind_Ret _ _ _ _ (snd kf) (eq_refl : ret (snd kf) (world db fs) = _)) in H.
Qed.

(** C1. With a data file that holds at least one record, [convert] to
    another supported format does not return: the first iteration of its
    copying loop calls [add] with two arguments and raises [TypeError].
    The object is unchanged, no file of the new format is left and the
    old data file is still there. *)
Theorem convert_raises_on_records (w : World) (newFormat : string)
    (records : list Record) :
  newFormat <> currentFormat (self w) ->
  supported newFormat = true ->
  is_Some (disk w !! dataFile (self w)) ->
  getRecords_db w = (Ret records, w) ->
  records <> [] ->
  convert newFormat w
  = (Raise TypeError,
     world (self w)
       (delete (fileName (self w) +:+ "." +:+ newFormat) (disk w))).
Proof.
  intros Hne Hsup [text Hfile] Hget Hrecords.
  destruct w as [db fs]; simpl in *. fold (world db fs) in *.
  destruct (getRecords_db_inv _ _ _ _ Hget) as (format & Hformat & Hread).
  unfold convert. rewrite (bind_Ret _ _ _ _ _ (get_self_eq db fs)).
  destruct (String.eqb_spec newFormat (currentFormat db)) as [E | _];
    [exfalso; by apply Hne |].
  rewrite (bind_Ret _ _ _ _ _ (on_disk_eq _ db _ _ _ (isfile_Some _ _ _ Hfile))).
  cbn [negb]. rewrite Hsup.
  rewrite (bind_Ret _ _ _ _ _ Hformat).
  rewrite (bind_Ret _ _ _ _ _ Hread).
  rewrite (bind_Ret _ _ _ _ _
             (on_disk_eq _ db _ _ _ (eq_refl : Os.isfile _ fs = (_, fs)))).
  destruct records as [| record records]; [done |].
  case_bool_decide as Hstale.
  - destruct Hstale as [stale Hstale].
    by rewrite (bind_Ret _ _ _ _ _
                  (on_disk_eq _ db _ _ _ (remove_Some _ _ _ Hstale))).
  - rewrite delete_id; [reflexivity |].
    by apply eq_None_not_Some.
Qed.

Lemma convert_raises_on_records_witness :
  convert "json" (world (init "db" "csv") {[ "db.csv" := csv_text [john_doe] ]})
  = (Raise TypeError,
     world (init "db" "csv")
       (delete "db.json" {[ "db.csv" := csv_text [john_doe] ]})).
Proof.
  refine (convert_raises_on_records
            (world (init "db" "csv") {[ "db.csv" := csv_text [john_doe] ]})
            "json" [john_doe] _ _ _ _ _).
  - discriminate.
  - reflexivity.
  - eexists. reflexivity.
  - vm_compute. reflexivity.
  - discriminate.
Defined.

(** C2. Three calls of the core that raise instead of returning a value:
    [convert] on a database with one record ([TypeError], from the call
    of [add] with two arguments), [importRecords] on a name without a dot
    ([IndexError]), and [getRecords] on an empty csv data file
    ([StopIteration], from [next(reader)]). *)
Theorem core_operations_raise :
  fst (convert "json"
         (world (init "db" "csv") {[ "db.csv" := csv_text [john_doe] ]}))
  = Raise TypeError
  /\ fst (importRecords "backup" (world (init "db" "csv") ∅))
     = Raise IndexError
  /\ fst (getRecords_db (world (init "db" "csv") {[ "db.csv" := EmptyString ]}))
     = Raise StopIteration.
Proof. repeat split; vm_compute; reflexivity. Qed.

(** ** Reading *)

(** C8. When the data file does not exist, [getRecords] returns the empty
    list, for the csv format and for the json format, and changes
    nothing. *)
Theorem getRecords_missing_file (w : World) :
  supported (currentFormat (self w)) = true ->
  disk w !! dataFile (self w) = None ->
  getRecords_db w = (Ret [], w).
Proof.
  intros Hsup Hnone.
  destruct w as [db fs]; simpl in *. fold (world db fs).
  unfold getRecords_db. rewrite (bind_Ret _ _ _ _ _ (get_self_eq db fs)).
  destruct (supported_cases _ Hsup) as [-> | ->].
  - rewrite (bind_Ret _ _ _ _ _ (formats_csv _)).
    apply on_disk_eq. cbn [getRecords csv_format].
    unfold CSVFormat.getRecords.
    by rewrite (bind_Ret _ _ _ _ _ (isfile_None _ _ Hnone)).
  - rewrite (bind_Ret _ _ _ _ _ (formats_json _)).
    apply on_disk_eq. cbn [getRecords json_format].
    unfold JSONFormat.getRecords.
    by rewrite (bind_Ret _ _ _ _ _ (isfile_None _ _ Hnone)).
Qed.

Lemma getRecords_missing_file_witness :
  getRecords_db (world (init "db" "csv") ∅)
  = (Ret [], world (init "db" "csv") ∅)
  /\ getRecords_db (world (init "db" "json") ∅)
     = (Ret [], world (init "db" "json") ∅).
Proof.
  split.
  - apply (getRecords_missing_file (world (init "db" "csv") ∅));
      reflexivity.
  - apply (getRecords_missing_file (world (init "db" "json") ∅));
      reflexivity.
Defined.

(** ** Import *)

(** C5. The source format is taken to be the second dot-separated part of
    the name, not the extension: a csv file named [my.data.csv] is
    refused and nothing is imported from it, while [contacts.csv.bak],
    whose extension names no format, is read as csv and imported. *)
Theorem importRecords_second_component :
  importRecords "my.data.csv"
    (world (init "db" "csv") {[ "my.data.csv" := csv_text [john_doe] ]})
  = (Ret false,
     world (init "db" "csv") {[ "my.data.csv" := csv_text [john_doe] ]})
  /\ importRecords "contacts.csv.bak"
       (world (init "db" "json")
              {[ "contacts.csv.bak" := csv_text [john_doe] ]})
     = (Ret true,
        world (init "db" "json")
              (<[ "db.json" := Json.dumps (Json.Obj [("records",
                                  Json.Arr [JSONFormat.of_record john_doe])]) ]>
                 {[ "contacts.csv.bak" := csv_text [john_doe] ]})).
Proof. split; vm_compute; reflexivity. Qed.

(** ** Filtering *)

Section Filter.
Import Py Fnmatch.

Lemma translate_plain (pat : string) (fuel : nat) :
  contains "[" pat = false ->
  String.length pat <= fuel ->
  translate_aux fuel pat = map plain_token (list_ascii_of_string pat).
Proof.
  revert fuel. induction pat as [| c pat IH]; intros fuel Hno Hlen.
  - by destruct fuel.
  - destruct fuel as [| fuel]; simpl in Hlen; [lia |].
    simpl in Hno. apply orb_false_iff in Hno as [Hc Hno].
    simpl. unfold plain_token at 1.
    rewrite Hc, IH by (done || lia).
    by repeat case_match.
Qed.

Lemma match_star_skip (ts : list token) (c : ascii) (s : string) :
  match_tokens (Star :: ts) s = true ->
  match_tokens (Star :: ts) (String c s) = true.
Proof.
  intros H. change (match_tokens ts (String c s)
                    || match_tokens (Star :: ts) s = true).
  rewrite H. apply orb_true_r.
Qed.

Lemma match_star_here (ts : list token) (s : string) :
  match_tokens ts s = true -> match_tokens (Star :: ts) s = true.
Proof. intros H. destruct s; simpl; by rewrite H. Qed.

(** A pattern without character classes matches itself. *)
Lemma fnmatch_self (pat : string) :
  contains "[" pat = false -> fnmatch pat pat = true.
Proof.
  intros Hno. unfold fnmatch, translate.
  rewrite translate_plain by done. clear Hno.
  induction pat as [| c pat IH]; [done |].
  cbn [list_ascii_of_string map]. unfold plain_token at 1.
  destruct (Ascii.eqb c "*"); [| destruct (Ascii.eqb c "?")].
  - by apply match_star_skip, match_star_here.
  - exact IH.
  - simpl. by rewrite Ascii.eqb_refl.
Qed.

(** The results of [filter] only grow along the loop. *)
Lemma filter_sub_items_keeps (entry : Record) (value : string)
    (subItems : list string) (acc : list Record) (r : Record) :
  In r acc -> In r (filter_sub_items entry value subItems acc).
Proof.
  revert acc. induction subItems as [| x xs IH]; intros acc H; [done |].
  simpl. apply IH. destruct (String.eqb value x); [| done].
  apply in_or_app. by left.
Qed.

Lemma filter_entries_keeps (entries : list Record) (field pat : string)
    (acc out : list Record) (r : Record) :
  filter_entries entries field pat acc = Ret out -> In r acc -> In r out.
Proof.
  revert acc. induction entries as [| e es IH]; intros acc Hout Hin.
  - simpl in Hout. by injection Hout as <-.
  - simpl in Hout. destruct (Rec.get e field) as [v |]; [| discriminate].
    apply (IH _ Hout).
    destruct (fnmatch v pat); [apply in_or_app; by left |].
    destruct (contains COMMA pat); [| done].
    by apply filter_sub_items_keeps.
Qed.

(** [filter] returns when every record has the field. *)
Lemma filter_entries_total (entries : list Record) (field pat : string)
    (acc : list Record) :
  Forall (fun e => is_Some (Rec.get e field)) entries ->
  exists out, filter_entries entries field pat acc = Ret out.
Proof.
  intros H. revert acc. induction H as [| e es [v Hv] _ IH]; intros acc.
  - by eexists.
  - simpl. rewrite Hv. apply IH.
Qed.

Lemma filter_entries_match (entries : list Record) (field pat : string)
    (acc out : list Record) (r : Record) (v : string) :
  filter_entries entries field pat acc = Ret out ->
  In r entries -> Rec.get r field = Some v -> fnmatch v pat = true ->
  In r out.
Proof.
  revert acc. induction entries as [| e es IH]; intros acc Hout Hin Hv Hm;
    [done |].
  simpl in Hout. destruct (Rec.get e field) as [ve |] eqn:Hve; [| discriminate].
  destruct Hin as [-> | Hin].
  - rewrite Hv in Hve. injection Hve as <-. rewrite Hm in Hout.
    apply (filter_entries_keeps _ _ _ _ _ _ Hout), in_or_app.
    right. by left.
  - by apply (IH _ Hout).
Qed.

Lemma filter_run (w : World) (field pat : string) (entries out : list Record) :
  getRecords_db w = (Ret entries, w) ->
  filter_entries entries field pat [] = Ret out ->
  filter field pat w = (Ret out, w).
Proof.
  intros Hget Hout. unfold filter.
  rewrite (bind_Ret _ _ _ _ _ Hget). by rewrite Hout.
Qed.

(** Counting the copies of a record in the results. *)
Lemma filter_sub_items_count (entry : Record) (value : string)
    (subItems : list string) (acc : list Record) (r : Record) :
  count_occ record_eq_dec (filter_sub_items entry value subItems acc) r
  = count_occ record_eq_dec acc r
    + (if record_eq_dec entry r
       then length (List.filter (String.eqb value) subItems) else 0).
Proof.
  revert acc. induction subItems as [| x xs IH]; intros acc.
  - simpl. destruct (record_eq_dec entry r); lia.
  - simpl. rewrite IH. destruct (String.eqb value x); simpl.
    + rewrite count_occ_app. simpl.
      destruct (record_eq_dec entry r); lia.
    + lia.
Qed.

Lemma chr_eqb (a b : ascii) : String.eqb (chr a) (chr b) = Ascii.eqb a b.
Proof. unfold chr. simpl. by destruct (Ascii.eqb a b). Qed.

Lemma chars_count (c : ascii) (pat : string) :
  length (List.filter (String.eqb (chr c)) (chars pat)) = count c pat.
Proof.
  induction pat as [| x pat IH]; [done |].
  cbn [chars List.filter count]. rewrite chr_eqb, (Ascii.eqb_sym x c).
  destruct (Ascii.eqb c x); cbn [length]; by rewrite IH.
Qed.

Lemma filter_entries_count (entries : list Record) (field pat : string)
    (acc out : list Record) (r : Record) (c : ascii) :
  contains COMMA pat = true ->
  Rec.get r field = Some (chr c) ->
  fnmatch (chr c) pat = false ->
  filter_entries entries field pat acc = Ret out ->
  count_occ record_eq_dec out r
  = count_occ record_eq_dec acc r
    + count c pat * count_occ record_eq_dec entries r.
Proof.
  intros Hcomma Hv Hno. revert acc.
  induction entries as [| e es IH]; intros acc Hout.
  - simpl in Hout. injection Hout as <-. simpl. lia.
  - simpl in Hout. destruct (Rec.get e field) as [ve |] eqn:Hve;
      [| discriminate].
    rewrite (IH _ Hout). rewrite Hcomma.
    destruct (record_eq_dec e r) as [-> | Hne].
    + rewrite Hv in Hve. injection Hve as <-. rewrite Hno.
      rewrite filter_sub_items_count, chars_count, count_occ_cons_eq by done.
      destruct (record_eq_dec r r); [lia | done].
    + rewrite count_occ_cons_neq by done.
      destruct (fnmatch ve pat).
      * rewrite count_occ_app. simpl.
        destruct (record_eq_dec e r); [done | lia].
      * rewrite filter_sub_items_count.
        destruct (record_eq_dec e r); [done | lia].
Qed.

End Filter.

(** C10. When the pattern contains a comma and the field of a record is a
    single character that the pattern does not match as a glob, [filter]
    returns the record once for every occurrence of that character in the
    pattern: [k] times for a record stored once and a character occurring
    [k > 1] times. *)
Theorem filter_repeats_record (w : World) (field pat : string)
    (entries : list Record) (r : Record) (c : ascii) (k : nat) :
  getRecords_db w = (Ret entries, w) ->
  Forall (fun e => is_Some (Rec.get e field)) entries ->
  Py.contains Py.COMMA pat = true ->
  count_occ record_eq_dec entries r = 1 ->
  Rec.get r field = Some (Py.chr c) ->
  Fnmatch.fnmatch (Py.chr c) pat = false ->
  Py.count c pat = k -> 1 < k ->
  exists out, filter field pat w = (Ret out, w)
              /\ count_occ record_eq_dec out r = k.
Proof.
  intros Hget Hall Hcomma Hone Hv Hno Hk _.
  destruct (filter_entries_total entries field pat [] Hall) as [out Hout].
  exists out. split; [by apply (filter_run _ _ _ entries) |].
  rewrite (filter_entries_count _ _ _ _ _ _ _ Hcomma Hv Hno Hout).
  rewrite Hone, Hk. simpl. lia.
Qed.

Lemma filter_repeats_record_witness :
  exists out,
    filter "name" "a,a"
      (world (init "db" "csv")
         {[ "db.csv" := csv_text [Rec.make "a" "x" "y"; john_doe] ]})
    = (Ret out,
       world (init "db" "csv")
         {[ "db.csv" := csv_text [Rec.make "a" "x" "y"; john_doe] ]})
    /\ count_occ record_eq_dec out (Rec.make "a" "x" "y") = 2.
Proof.
  refine (filter_repeats_record
            (world (init "db" "csv")
               {[ "db.csv" := csv_text [Rec.make "a" "x" "y"; john_doe] ]})
            "name" "a,a" [Rec.make "a" "x" "y"; john_doe]
            (Rec.make "a" "x" "y") "a" 2 _ _ _ _ _ _ _ _).
  - vm_compute. reflexivity.
  - repeat constructor; eexists; reflexivity.
  - reflexivity.
  - reflexivity.
  - reflexivity.
  - reflexivity.
  - reflexivity.
  - lia.
Defined.

(** C4, as the code has it. [filter] returns every record whose field
    matches the pattern as a glob, with or without a comma in the pattern;
    a field equal to the pattern is among them whenever the pattern has no
    opening bracket. *)
Theorem filter_includes_matches (w : World) (field pat : string)
    (entries : list Record) (r : Record) (v : string) :
  getRecords_db w = (Ret entries, w) ->
  Forall (fun e => is_Some (Rec.get e field)) entries ->
  In r entries ->
  Rec.get r field = Some v ->
  Fnmatch.fnmatch v pat = true \/ (v = pat /\ Py.contains "[" pat = false) ->
  exists out, filter field pat w = (Ret out, w) /\ In r out.
Proof.
  intros Hget Hall Hin Hv Hm.
  destruct (filter_entries_total entries field pat [] Hall) as [out Hout].
  exists out. split; [by apply (filter_run _ _ _ entries) |].
  apply (filter_entries_match _ _ _ _ _ _ v Hout Hin Hv).
  destruct Hm as [Hm | [-> Hno]]; [done | by apply fnmatch_self].
Qed.

Lemma filter_includes_matches_witness :
  exists out,
    filter "name" "George*,?"
      (world (init "db" "json") {[ "db.json" :=
         Json.dumps (Json.Obj [("records",
           Json.Arr [JSONFormat.of_record (Rec.make "George*,?" "x" "y")])]) ]})
    = (Ret out,
       world (init "db" "json") {[ "db.json" :=
         Json.dumps (Json.Obj [("records",
           Json.Arr [JSONFormat.of_record (Rec.make "George*,?" "x" "y")])]) ]})
    /\ In (Rec.make "George*,?" "x" "y") out.
Proof.
  refine (filter_includes_matches
            (world (init "db" "json") {[ "db.json" :=
               Json.dumps (Json.Obj [("records",
                 Json.Arr [JSONFormat.of_record (Rec.make "George*,?" "x" "y")])]) ]})
            "name" "George*,?" [Rec.make "George*,?" "x" "y"]
            (Rec.make "George*,?" "x" "y") "George*,?" _ _ _ _ _).
  - vm_compute. reflexivity.
  - repeat constructor; eexists; reflexivity.
  - by left.
  - reflexivity.
  - right. split; reflexivity.
Defined.

(** C4, as stated, fails: the pattern [[a],b] contains a comma, the one
    record of the database has exactly that text as its name, and
    [filter] returns nothing. *)
Lemma filter_misses_literal_pattern :
  let r := Rec.make "[a],b" "x" "y" in
  let w := world (init "db" "csv") {[ "db.csv" := csv_text [r] ]} in
  Py.contains Py.COMMA "[a],b" = true
  /\ getRecords_db w = (Ret [r], w)
  /\ Rec.get r "name" = Some "[a],b"
  /\ filter "name" "[a],b" w = (Ret [], w).
Proof. repeat split; vm_compute; reflexivity. Qed.

(** ** Strings *)

Section StringFacts.
Import Py.

Lemma append_cons (c : ascii) (s t : string) :
  String c s +:+ t = String c (s +:+ t).
Proof. reflexivity. Qed.

Lemma chr_app (c : ascii) (t : string) : chr c +:+ t = String c t.
Proof. reflexivity. Qed.

Lemma append_nil_l (t : string) : EmptyString +:+ t = t.
Proof. reflexivity. Qed.

Lemma append_nil_r (s : string) : s +:+ EmptyString = s.
Proof. induction s as [| c s IH]; [done | by rewrite append_cons, IH]. Qed.

Lemma append_assoc (a b c : string) : (a +:+ b) +:+ c = a +:+ b +:+ c.
Proof. induction a as [| x a IH]; [done | by rewrite !append_cons, IH]. Qed.

Lemma length_append (a b : string) :
  String.length (a +:+ b) = String.length a + String.length b.
Proof. induction a as [| x a IH]; [done | rewrite append_cons; simpl; by rewrite IH]. Qed.

Lemma contains_app (c : ascii) (a b : string) :
  contains c (a +:+ b) = contains c a || contains c b.
Proof.
  induction a as [| x a IH]; [done |].
  rewrite append_cons. simpl. by rewrite IH, orb_assoc.
Qed.

(** Text without carriage returns is read as it is. *)
Lemma universal_newlines_app (s t : string) :
  contains CR s = false ->
  universal_newlines (s +:+ t) = s +:+ universal_newlines t.
Proof.
  induction s as [| c s IH]; [done |].
  rewrite append_cons. simpl. intros [Hc Hs]%orb_false_iff. rewrite Hc.
  by rewrite IH.
Qed.

Lemma universal_newlines_id (s : string) :
  contains CR s = false -> universal_newlines s = s.
Proof.
  intros H. rewrite <- (append_nil_r s) at 1.
  rewrite universal_newlines_app by done. apply append_nil_r.
Qed.

Lemma universal_newlines_crlf (t : string) :
  universal_newlines (Csv.lineterminator +:+ t)
  = String LF (universal_newlines t).
Proof. reflexivity. Qed.

End StringFacts.

(** ** The csv reader on what the csv writer wrote *)

Section CsvFacts.
Import Py Csv.

Lemma special_false (c : ascii) :
  special c = false ->
  Ascii.eqb c COMMA = false /\ Ascii.eqb c DQUOTE = false
  /\ Ascii.eqb c CR = false /\ Ascii.eqb c LF = false.
Proof. unfold special. rewrite !orb_false_iff. tauto. Qed.

Lemma within_limit_le (s : string) :
  within_limit s = true
  <-> (N.of_nat (String.length s) <= field_size_limit)%N.
Proof. unfold within_limit. apply N.leb_le. Qed.

(** A field that stays within the limit with more characters to come has
    room for the next one. *)
Lemma parse_add_char_room (acc : string) (fs : list string) (s s' : state)
    (x : ascii) (f : string) :
  within_limit (acc +:+ String x f) = true ->
  parse_add_char (Parser s acc fs) x s' = Ret (Parser s' (acc +:+ chr x) fs).
Proof.
  intros H. apply within_limit_le in H. rewrite length_append in H.
  cbn [String.length] in H. unfold parse_add_char; cbn [field fields].
  destruct (N.leb_spec field_size_limit (N.of_nat (String.length acc)));
    [lia | done].
Qed.

Lemma within_limit_snoc (acc : string) (x : ascii) (f : string) :
  within_limit (acc +:+ String x f) = true ->
  within_limit ((acc +:+ chr x) +:+ f) = true.
Proof. by rewrite append_assoc, chr_app. Qed.

Lemma reader_step (p p1 : parser) (mid : bool) (c : ascii) (rest : string) :
  Ascii.eqb c LF = false ->
  parse_process_char p (Some c) = Ret p1 ->
  reader p mid (String c rest) = reader p1 true rest.
Proof. intros H E. cbn [reader]. by rewrite E, H. Qed.

(** A line feed that ends a record. *)
Lemma reader_end_record (p p2 : parser) (mid : bool) (rest : string) :
  match parse_process_char p (Some LF) with
  | Ret p1 => parse_process_char p1 None
  | Raise e => Raise e
  end = Ret p2 ->
  st p2 = START_RECORD ->
  reader p mid (String LF rest)
  = Ret (fields p2) :: reader parse_reset false rest.
Proof.
  intros E H. cbn [reader].
  destruct (parse_process_char p (Some LF)) as [p1 |]; [| done].
  change (Ascii.eqb LF LF) with true. cbn iota. by rewrite E, H.
Qed.

(** The characters of an unquoted field. *)
Lemma reader_in_field (f acc : string) (fs : list string) (rest : string) :
  needs_quotes f = false ->
  within_limit (acc +:+ f) = true ->
  reader (Parser IN_FIELD acc fs) true (f +:+ rest)
  = reader (Parser IN_FIELD (acc +:+ f) fs) true rest.
Proof.
  revert acc. induction f as [| x f IH]; intros acc Hf Hlen.
  - by rewrite append_nil_r.
  - simpl in Hf. apply orb_false_iff in Hf as [Hx Hf].
    destruct (special_false _ Hx) as (Hc & Hq & Hr & Hl).
    rewrite ?append_cons.
    rewrite (reader_step _ (Parser IN_FIELD (acc +:+ chr x) fs)); [| done |].
    + rewrite IH by (done || by apply within_limit_snoc).
      by rewrite append_assoc.
    + unfold parse_process_char, is_newline; cbn [st].
      rewrite Hl, Hr, Hc. cbn [orb]. by apply (parse_add_char_room _ _ _ _ _ f).
Qed.

(** The characters of a quoted field, up to its closing quote. *)
Lemma reader_in_quoted (f acc : string) (fs : list string) (mid : bool)
    (rest : string) :
  within_limit (acc +:+ f) = true ->
  reader (Parser IN_QUOTED_FIELD acc fs) mid
    (double_quotes f +:+ String DQUOTE rest)
  = reader (Parser QUOTE_IN_QUOTED_FIELD (acc +:+ f) fs) true rest.
Proof.
  revert acc mid. induction f as [| x f IH]; intros acc mid Hlen.
  - rewrite append_nil_r. reflexivity.
  - pose proof (parse_add_char_room acc fs QUOTE_IN_QUOTED_FIELD
                  IN_QUOTED_FIELD x f Hlen) as Hquote.
    pose proof (parse_add_char_room acc fs IN_QUOTED_FIELD
                  IN_QUOTED_FIELD x f Hlen) as Hadd.
    apply within_limit_snoc in Hlen.
    assert (acc +:+ String x f = (acc +:+ chr x) +:+ f) as ->
      by (by rewrite append_assoc, chr_app).
    cbn [double_quotes].
    destruct (Ascii.eqb_spec x DQUOTE) as [-> | Hq].
    + rewrite ?append_cons.
      rewrite (reader_step _ (Parser QUOTE_IN_QUOTED_FIELD acc fs)) by done.
      rewrite (reader_step _ (Parser IN_QUOTED_FIELD (acc +:+ chr DQUOTE) fs))
        by done.
      by apply IH.
    + apply Ascii.eqb_neq in Hq.
      rewrite ?append_cons. destruct (Ascii.eqb_spec x LF) as [-> | Hl].
      * cbn [reader]. unfold parse_process_char at 1; cbn [st].
        change (Ascii.eqb LF DQUOTE) with false. cbn iota.
        rewrite Hadd. change (Ascii.eqb LF LF) with true. cbn iota.
        unfold parse_process_char at 1; cbn [st state_eqb].
        by apply IH.
      * apply Ascii.eqb_neq in Hl.
        rewrite (reader_step _ (Parser IN_QUOTED_FIELD (acc +:+ chr x) fs));
          [by apply IH | done |].
        unfold parse_process_char; cbn [st]. by rewrite Hq.
Qed.

(** The first character of an unquoted field. *)
Lemma start_plain_field (s : state) (x : ascii) (f : string)
    (fs : list string) :
  at_start s ->
  special x = false ->
  within_limit (String x f) = true ->
  parse_process_char (Parser s EmptyString fs) (Some x)
  = Ret (Parser IN_FIELD (chr x) fs).
Proof.
  intros Hs Hx Hlen.
  destruct (special_false _ Hx) as (Hc & Hq & Hr & Hl).
  pose proof (parse_add_char_room EmptyString fs START_FIELD IN_FIELD x f Hlen)
    as Hadd.
  destruct Hs as [-> | ->];
    unfold parse_process_char, process_start_field, is_newline;
    cbn [st set_state field fields]; by rewrite Hl, Hr, Hq, Hc.
Qed.

Lemma start_quoted_field (s : state) (fs : list string) :
  at_start s ->
  parse_process_char (Parser s EmptyString fs) (Some DQUOTE)
  = Ret (Parser IN_QUOTED_FIELD EmptyString fs).
Proof. by intros [-> | ->]. Qed.

(** A field and the delimiter after it. *)
Lemma reader_field_comma (s : state) (f : string) (fs : list string)
    (mid : bool) (rest : string) :
  at_start s ->
  within_limit f = true ->
  reader (Parser s EmptyString fs) mid (write_field f +:+ String COMMA rest)
  = reader (Parser START_FIELD EmptyString (fs ++ [f])) true rest.
Proof.
  intros Hs Hlen. unfold write_field. destruct (needs_quotes f) eqn:Hf.
  - unfold quoted, chr. rewrite append_cons, append_assoc, append_cons, append_nil_l.
    rewrite (reader_step _ _ mid DQUOTE _ eq_refl (start_quoted_field s fs Hs)).
    rewrite reader_in_quoted, append_nil_l by done.
    by rewrite (reader_step _ (Parser START_FIELD EmptyString (fs ++ [f]))).
  - destruct f as [| x f].
    + rewrite append_nil_l.
      rewrite (reader_step _ (Parser START_FIELD EmptyString (fs ++ [EmptyString])));
        [done | done |].
      by destruct Hs as [-> | ->].
    + simpl in Hf. apply orb_false_iff in Hf as [Hx Hf].
      destruct (special_false _ Hx) as (Hc & Hq & Hr & Hl).
      rewrite append_cons.
      rewrite (reader_step _ _ _ _ _ Hl (start_plain_field s x f fs Hs Hx Hlen)).
      rewrite reader_in_field by done.
      by rewrite (reader_step _ (Parser START_FIELD EmptyString
                                   (fs ++ [String x f]))).
Qed.

(** The last field of a row and the line feed after it.  At the very
    start of a record the field must leave some text, or the line would
    be an empty one. *)
Lemma reader_field_eol (s : state) (f : string) (fs : list string)
    (mid : bool) (rest : string) :
  at_start s ->
  (s = START_RECORD -> f <> EmptyString) ->
  within_limit f = true ->
  reader (Parser s EmptyString fs) mid (write_field f +:+ String LF rest)
  = Ret (fs ++ [f]) :: reader parse_reset false rest.
Proof.
  intros Hs Hne Hlen. unfold write_field. destruct (needs_quotes f) eqn:Hf.
  - unfold quoted, chr. rewrite append_cons, append_assoc, append_cons, append_nil_l.
    rewrite (reader_step _ _ mid DQUOTE _ eq_refl (start_quoted_field s fs Hs)).
    rewrite reader_in_quoted, append_nil_l by done.
    by rewrite (reader_end_record _ (Parser START_RECORD EmptyString (fs ++ [f]))).
  - destruct f as [| x f].
    + destruct Hs as [-> | ->]; [by destruct Hne |].
      rewrite append_nil_l.
      by rewrite (reader_end_record _ (Parser START_RECORD EmptyString
                                         (fs ++ [EmptyString]))).
    + simpl in Hf. apply orb_false_iff in Hf as [Hx Hf].
      destruct (special_false _ Hx) as (Hc & Hq & Hr & Hl).
      rewrite append_cons.
      rewrite (reader_step _ _ _ _ _ Hl (start_plain_field s x f fs Hs Hx Hlen)).
      rewrite reader_in_field by done.
      by rewrite (reader_end_record _ (Parser START_RECORD EmptyString
                                         (fs ++ [String x f]))).
Qed.

(** The fields of a row after a delimiter, up to the end of the line. *)
Lemma reader_fields (row : list string) (fs : list string) (mid : bool)
    (rest : string) :
  row <> [] ->
  Forall (fun f => within_limit f = true) row ->
  reader (Parser START_FIELD EmptyString fs) mid
    (join (chr COMMA) (map write_field row) +:+ String LF rest)
  = Ret (fs ++ row) :: reader parse_reset false rest.
Proof.
  intros Hrow Hlen. revert fs mid.
  induction Hlen as [| f row Hf Hlen IH]; intros fs mid; [done |].
  destruct row as [| g row].
  - cbn [map join]. rewrite reader_field_eol; by try right.
  - change (join (chr COMMA) (map write_field (f :: g :: row)))
      with (write_field f +:+ chr COMMA
            +:+ join (chr COMMA) (map write_field (g :: row))).
    rewrite !append_assoc, chr_app.
    rewrite reader_field_comma by (done || by right).
    rewrite IH by done. by rewrite <- List.app_assoc.
Qed.

Lemma writerow_line (row : list string) :
  writerow row = line row +:+ lineterminator.
Proof. reflexivity. Qed.

(** A whole line gives back the row it was written from. *)
Lemma reader_line (row : list string) (mid : bool) (rest : string) :
  Forall (fun f => within_limit f = true) row ->
  reader parse_reset mid (line row +:+ String LF rest)
  = Ret row :: reader parse_reset false rest.
Proof.
  intros Hlen. destruct row as [| f [| g row]].
  - reflexivity.
  - destruct f as [| x f]; [reflexivity |].
    change (line [String x f]) with (write_field (String x f)).
    unfold parse_reset. apply Forall_inv in Hlen.
    rewrite reader_field_eol; by try left.
  - replace (line (f :: g :: row))
      with (write_field f +:+ chr COMMA
            +:+ join (chr COMMA) (map write_field (g :: row)))
      by (by destruct f).
    rewrite !append_assoc, chr_app.
    unfold parse_reset. inversion Hlen as [| ? ? Hf Hrest]; subst.
    rewrite reader_field_comma by (done || by left).
    by rewrite reader_fields.
Qed.

(** Carriage returns come from the fields only. *)
Lemma double_quotes_contains_CR (s : string) :
  contains CR (double_quotes s) = contains CR s.
Proof.
  induction s as [| c s IH]; [done |].
  cbn [double_quotes]. destruct (Ascii.eqb_spec c DQUOTE) as [-> | _];
    simpl; by rewrite IH.
Qed.

Lemma write_field_safe (f : string) :
  csv_safe f -> contains CR (write_field f) = false.
Proof.
  unfold csv_safe, write_field, quoted. intros [Hf _].
  destruct (needs_quotes f); [| done].
  simpl. by rewrite contains_app, double_quotes_contains_CR, Hf.
Qed.

Lemma line_safe (row : list string) :
  Forall csv_safe row -> contains CR (line row) = false.
Proof.
  intros Hrow.
  assert (contains CR (join (chr COMMA) (map write_field row)) = false) as H.
  { induction Hrow as [| f row Hf Hrow IH]; [done |].
    destruct row as [| g row]; [by apply write_field_safe |].
    change (join (chr COMMA) (map write_field (f :: g :: row)))
      with (write_field f +:+ chr COMMA
            +:+ join (chr COMMA) (map write_field (g :: row))).
    by rewrite !contains_app, write_field_safe, IH. }
  by destruct row as [| [| x f] [| g row]].
Qed.

Lemma safe_within_limit (row : list string) :
  Forall csv_safe row -> Forall (fun f => within_limit f = true) row.
Proof. apply List.Forall_impl. by intros f [_ H]. Qed.

(** Reading back the text of a row, through the translation of line
    ends. *)
Lemma read_written_row (row : list string) (mid : bool) (rest : string) :
  Forall csv_safe row ->
  reader parse_reset mid (universal_newlines (writerow row +:+ rest))
  = Ret row :: reader parse_reset false (universal_newlines rest).
Proof.
  intros Hrow. rewrite writerow_line, append_assoc.
  rewrite universal_newlines_app by (by apply line_safe).
  rewrite universal_newlines_crlf. apply reader_line.
  by apply safe_within_limit.
Qed.

End CsvFacts.

(** ** The json decoder on what the json encoder wrote *)

Section JsonFacts.
Import Py Json.

(** One escaped character is decoded to the character. *)
Lemma scanstring_escape_char (c : ascii) (rest : string) :
  scanstring (escape_char c +:+ rest)
  = match scanstring rest with
    | Ret (str, r) => Ret (String c str, r)
    | Raise e => Raise e
    end.
Proof. destruct c as [[] [] [] [] [] [] [] []]; reflexivity. Qed.

Lemma scanstring_escape (s rest : string) :
  scanstring (escape s +:+ String DQUOTE rest) = Ret (s, rest).
Proof.
  induction s as [| c s IH]; [reflexivity |].
  cbn [escape]. by rewrite append_assoc, scanstring_escape_char, IH.
Qed.

Lemma escape_char_no_CR (c : ascii) : contains CR (escape_char c) = false.
Proof. destruct c as [[] [] [] [] [] [] [] []]; reflexivity. Qed.

Lemma encode_string_no_CR (s : string) : contains CR (encode_string s) = false.
Proof.
  unfold encode_string. cbn [contains]. rewrite contains_app.
  cbn. rewrite orb_false_r.
  induction s as [| c s IH]; [done |].
  cbn [escape]. by rewrite contains_app, escape_char_no_CR, IH.
Qed.

Lemma scan_once_string (fuel : nat) (s rest : string) :
  0 < fuel ->
  scan_once fuel (encode_string s +:+ rest) = Ret (Str s, rest).
Proof.
  intros Hfuel. destruct fuel as [| fuel]; [lia |].
  unfold encode_string, chr. rewrite append_cons, append_assoc, append_cons, append_nil_l.
  cbn [scan_once]. cbn. by rewrite scanstring_escape.
Qed.

(** White space. *)
Lemma skip_ws_spaces (n : nat) (s : string) :
  skip_ws (spaces n +:+ s) = skip_ws s.
Proof. induction n as [| n IH]; [done | by rewrite <- IH]. Qed.

Lemma skip_ws_newline_indent (level : nat) (s : string) :
  skip_ws (newline_indent level +:+ s) = skip_ws s.
Proof.
  unfold newline_indent. rewrite append_cons.
  change (skip_ws (spaces (4 * level) +:+ s) = skip_ws s).
  apply skip_ws_spaces.
Qed.

Lemma newline_indent_length (level : nat) :
  0 < String.length (newline_indent level).
Proof. unfold newline_indent. simpl. lia. Qed.

Lemma spaces_no_CR (n : nat) : contains CR (spaces n) = false.
Proof. induction n as [| n IH]; [done | exact IH]. Qed.

Lemma newline_indent_no_CR (level : nat) :
  contains CR (newline_indent level) = false.
Proof. apply spaces_no_CR. Qed.

Lemma separator_length (level : nat) : 0 < String.length (separator level).
Proof. unfold separator. rewrite length_append. simpl. lia. Qed.

Lemma encode_of_record (level : nat) (kv : string * string) (r : Record) :
  encode level (JSONFormat.of_record (kv :: r))
  = "{" +:+ newline_indent (S level)
    +:+ join (separator (S level)) (map member_text (kv :: r))
    +:+ newline_indent level +:+ "}".
Proof.
  unfold JSONFormat.of_record. cbn [map encode].
  do 4 f_equal. unfold separator. f_equal.
  rewrite !map_map. reflexivity.
Qed.

Lemma member_text_head (kv : string * string) (s : string) :
  member_text kv +:+ s
  = String DQUOTE (escape (fst kv)
       +:+ String DQUOTE (": " +:+ encode_string (snd kv) +:+ s)).
Proof.
  unfold member_text, encode_string at 1, chr.
  by rewrite !append_assoc, !append_cons, append_assoc, append_cons, append_nil_l.
Qed.

(** One member of an object: key, colon, value, and what follows. *)
Lemma parse_member (fuel : nat) (acc : list (string * value)) (key : string)
    (v : value) (vtext tail : string) :
  scan_once fuel (skip_ws (vtext +:+ tail)) = Ret (v, tail) ->
  parse_members (S fuel) acc (encode_string key +:+ ": " +:+ vtext +:+ tail)
  = match skip_ws tail with
    | String c rest =>
        if Ascii.eqb c "}" then Ret (Obj (dict_set acc key v), rest)
        else if Ascii.eqb c ","
        then parse_members fuel (dict_set acc key v) (skip_ws rest)
        else Raise JSONDecodeError
    | EmptyString => Raise JSONDecodeError
    end.
Proof.
  intros Hv. unfold encode_string, chr.
  rewrite !append_cons, append_assoc, !append_cons, !append_nil_l.
  cbn [parse_members].
  change (Ascii.eqb DQUOTE DQUOTE) with true. cbn iota.
  rewrite scanstring_escape.
  change (skip_ws (String ":" (String " " (vtext +:+ tail))))
    with (String ":" (String " " (vtext +:+ tail))).
  cbn iota. change (Ascii.eqb ":" ":") with true. cbn iota.
  change (skip_ws (String " " (vtext +:+ tail)))
    with (skip_ws (vtext +:+ tail)).
  by rewrite Hv.
Qed.

Lemma skip_ws_quote (s : string) :
  skip_ws (String DQUOTE s) = String DQUOTE s.
Proof. reflexivity. Qed.

Lemma encode_string_head (s t : string) :
  encode_string s +:+ t = String DQUOTE (escape s +:+ String DQUOTE t).
Proof.
  unfold encode_string, chr. by rewrite append_cons, append_assoc, append_cons, append_nil_l.
Qed.

Lemma member_text_app (kv : string * string) (tail : string) :
  member_text kv +:+ tail
  = encode_string (fst kv) +:+ ": " +:+ encode_string (snd kv) +:+ tail.
Proof. unfold member_text. by rewrite !append_assoc. Qed.

Lemma skip_ws_members (sep : string) (kv : string * string) (r : Record)
    (s : string) :
  skip_ws (join sep (map member_text (kv :: r)) +:+ s)
  = join sep (map member_text (kv :: r)) +:+ s.
Proof.
  destruct r as [| kv' r].
  - cbn [map join]. by rewrite member_text_app, encode_string_head.
  - change (join sep (map member_text (kv :: kv' :: r)))
      with (member_text kv +:+ sep +:+ join sep (map member_text (kv' :: r))).
    by rewrite append_assoc, member_text_app, encode_string_head.
Qed.

Lemma members_head (sep : string) (kv : string * string) (r : Record)
    (s : string) :
  exists t, join sep (map member_text (kv :: r)) +:+ s = String DQUOTE t.
Proof.
  destruct r as [| kv' r].
  - cbn [map join]. rewrite member_text_app, encode_string_head. by eexists.
  - change (join sep (map member_text (kv :: kv' :: r)))
      with (member_text kv +:+ sep +:+ join sep (map member_text (kv' :: r))).
    rewrite append_assoc, member_text_app, encode_string_head. by eexists.
Qed.

(** The members of a record, from the key of the first one to the
    closing brace. *)
Lemma parse_members_record (r : Record) (acc : list (string * value))
    (level fuel : nat) (rest : string) :
  r <> [] ->
  String.length (join (separator (S level)) (map member_text r)
                 +:+ newline_indent level +:+ "}" +:+ rest) < fuel ->
  parse_members fuel acc
    (join (separator (S level)) (map member_text r)
     +:+ newline_indent level +:+ "}" +:+ rest)
  = Ret (Obj (add_members acc r), rest).
Proof.
  revert acc fuel. induction r as [| kv r IH]; intros acc fuel Hr Hfuel;
    [done |].
  destruct fuel as [| fuel]; [lia |].
  destruct r as [| kv' r].
  - cbn [map join] in *. rewrite member_text_app in *.
    rewrite !length_append in Hfuel. cbn [String.length] in Hfuel.
    rewrite parse_member with (v := Str (snd kv)).
    + rewrite skip_ws_newline_indent. reflexivity.
    + rewrite encode_string_head, skip_ws_quote, <- encode_string_head.
      apply scan_once_string. lia.
  - change (join (separator (S level)) (map member_text (kv :: kv' :: r)))
      with (member_text kv +:+ separator (S level)
            +:+ join (separator (S level)) (map member_text (kv' :: r))) in *.
    rewrite !append_assoc in *. rewrite member_text_app in *.
    rewrite !length_append in Hfuel. cbn [String.length] in Hfuel.
    rewrite parse_member with (v := Str (snd kv)).
    + unfold separator at 1. rewrite append_assoc, append_cons, append_nil_l.
      change (skip_ws (String "," ?x)) with (String "," x). cbn iota.
      change (Ascii.eqb "," "}") with false.
      change (Ascii.eqb "," ",") with true. cbn iota.
      rewrite skip_ws_newline_indent.
      rewrite skip_ws_members. rewrite IH; [done | done |].
      rewrite !length_append. cbn [String.length]. lia.
    + rewrite encode_string_head, skip_ws_quote, <- encode_string_head.
      apply scan_once_string. lia.
Qed.

(** With keys that differ, the dictionary built is the list of members. *)
Lemma dict_set_fresh (d : list (string * value)) (key : string) (v : value) :
  key ∉ map fst d -> dict_set d key v = d ++ [(key, v)].
Proof.
  induction d as [| [k x] d IH]; [done |].
  cbn [map fst]. rewrite not_elem_of_cons. intros [Hne Hd].
  cbn [dict_set]. destruct (String.eqb_spec k key) as [-> | _]; [done |].
  by rewrite IH.
Qed.

Lemma add_members_fresh (acc : list (string * value)) (r : Record) :
  NoDup (map fst acc ++ map fst r) ->
  add_members acc r = acc ++ map (fun kv => (fst kv, Str (snd kv))) r.
Proof.
  revert acc. induction r as [| [k s] r IH]; intros acc Hnd.
  - by rewrite List.app_nil_r.
  - cbn [add_members fold_left map fst snd].
    apply NoDup_app in Hnd as (Hacc & Hdisj & Hr).
    apply NoDup_cons in Hr as [Hk Hr].
    rewrite dict_set_fresh.
    2:{ intros Hin. apply (Hdisj _ Hin). by left. }
    change (fold_left _ r ?d) with (add_members d r).
    rewrite IH.
    + by rewrite <- List.app_assoc.
    + rewrite map_app. cbn [map fst]. rewrite <- List.app_assoc.
      apply NoDup_app. repeat split; [done | | by apply NoDup_cons].
      intros x Hx Hx'. apply (Hdisj _ Hx). done.
Qed.

(** A record as a whole. *)
Lemma scan_once_record (r : Record) (level fuel : nat) (rest : string) :
  NoDup (map fst r) ->
  String.length (encode level (JSONFormat.of_record r) +:+ rest) < fuel ->
  scan_once fuel (encode level (JSONFormat.of_record r) +:+ rest)
  = Ret (JSONFormat.of_record r, rest).
Proof.
  intros Hnd Hfuel. destruct fuel as [| fuel]; [lia |].
  destruct r as [| kv r]; [reflexivity |].
  rewrite encode_of_record in *. rewrite !append_assoc, append_cons, append_nil_l in *.
  cbn [scan_once]. change (Ascii.eqb "{" DQUOTE) with false.
  change (Ascii.eqb "{" "{") with true. cbn iota.
  rewrite skip_ws_newline_indent, skip_ws_members.
  destruct (members_head (separator (S level)) kv r
              (newline_indent level +:+ "}" +:+ rest)) as [t Ht].
  rewrite Ht. cbn iota. change (Ascii.eqb DQUOTE "}") with false. cbn iota.
  rewrite <- Ht. rewrite parse_members_record.
  - unfold JSONFormat.of_record. by rewrite add_members_fresh.
  - done.
  - cbn [String.length] in Hfuel. rewrite !length_append in *. lia.
Qed.

Lemma record_head (level : nat) (r : Record) (s : string) :
  exists t, encode level (JSONFormat.of_record r) +:+ s = String "{" t.
Proof.
  destruct r as [| kv r]; [by eexists |].
  rewrite encode_of_record, !append_assoc, append_cons. by eexists.
Qed.

Lemma items_head (sep : string) (level : nat) (r : Record)
    (rs : list Record) (s : string) :
  exists t,
    join sep (map (fun r => encode level (JSONFormat.of_record r)) (r :: rs))
    +:+ s = String "{" t.
Proof.
  destruct rs as [| r' rs].
  - cbn [map join]. apply record_head.
  - change (join sep (map (fun r => encode level (JSONFormat.of_record r))
                        (r :: r' :: rs)))
      with (encode level (JSONFormat.of_record r) +:+ sep
            +:+ join sep (map (fun r => encode level (JSONFormat.of_record r))
                            (r' :: rs))).
    rewrite append_assoc. apply record_head.
Qed.

(** The items of an array of records, up to the closing bracket. *)
Lemma parse_items_records (rs : list Record) (acc : list value)
    (level fuel : nat) (rest : string) :
  rs <> [] ->
  Forall (fun r => NoDup (map fst r)) rs ->
  S (String.length
       (join (separator (S level))
          (map (fun r => encode (S level) (JSONFormat.of_record r)) rs)
        +:+ newline_indent level +:+ "]" +:+ rest)) < fuel ->
  parse_items fuel acc
    (join (separator (S level))
       (map (fun r => encode (S level) (JSONFormat.of_record r)) rs)
     +:+ newline_indent level +:+ "]" +:+ rest)
  = Ret (Arr (acc ++ map JSONFormat.of_record rs), rest).
Proof.
  intros Hrs Hall. revert acc fuel.
  induction Hall as [| r rs Hr Hall IH]; intros acc fuel Hfuel; [done |].
  destruct fuel as [| fuel]; [lia |].
  destruct rs as [| r' rs].
  - cbn [map join] in *. cbn [parse_items].
    rewrite scan_once_record by (done || lia).
    rewrite skip_ws_newline_indent. reflexivity.
  - change (join (separator (S level))
              (map (fun r => encode (S level) (JSONFormat.of_record r))
                 (r :: r' :: rs)))
      with (encode (S level) (JSONFormat.of_record r) +:+ separator (S level)
            +:+ join (separator (S level))
                  (map (fun r => encode (S level) (JSONFormat.of_record r))
                     (r' :: rs))) in *.
    rewrite !append_assoc in *. cbn [parse_items].
    rewrite scan_once_record by (done || lia).
    unfold separator at 1. rewrite append_assoc, append_cons, append_nil_l.
    change (skip_ws (String "," ?x)) with (String "," x). cbn iota.
    change (Ascii.eqb "," "]") with false.
    change (Ascii.eqb "," ",") with true. cbn iota.
    rewrite skip_ws_newline_indent.
    destruct (items_head (separator (S level)) (S level) r' rs
                (newline_indent level +:+ "]" +:+ rest)) as [t Ht].
    rewrite Ht. change (skip_ws (String "{" t)) with (String "{" t).
    rewrite <- Ht. rewrite IH.
    + by rewrite <- List.app_assoc.
    + done.
    + rewrite !length_append in *.
      pose proof (separator_length (S level)). lia.
Qed.

Lemma encode_records (level : nat) (r : Record) (rs : list Record) :
  encode level (Arr (map JSONFormat.of_record (r :: rs)))
  = "[" +:+ newline_indent (S level)
    +:+ join (separator (S level))
          (map (fun r => encode (S level) (JSONFormat.of_record r)) (r :: rs))
    +:+ newline_indent level +:+ "]".
Proof.
  cbn [map encode]. do 4 f_equal. by rewrite map_map.
Qed.

Lemma records_head (level : nat) (rs : list Record) (s : string) :
  exists t,
    encode level (Arr (map JSONFormat.of_record rs)) +:+ s = String "[" t.
Proof.
  destruct rs as [| r rs]; [by eexists |].
  rewrite encode_records, !append_assoc, append_cons. by eexists.
Qed.

Lemma skip_ws_encode_string (s t : string) :
  skip_ws (encode_string s +:+ t) = encode_string s +:+ t.
Proof. by rewrite encode_string_head. Qed.

(** The list of records as a whole. *)
Lemma scan_once_records (rs : list Record) (level fuel : nat) (rest : string) :
  Forall (fun r => NoDup (map fst r)) rs ->
  String.length (encode level (Arr (map JSONFormat.of_record rs)) +:+ rest)
  < fuel ->
  scan_once fuel (encode level (Arr (map JSONFormat.of_record rs)) +:+ rest)
  = Ret (Arr (map JSONFormat.of_record rs), rest).
Proof.
  intros Hall Hfuel. destruct fuel as [| fuel]; [lia |].
  destruct rs as [| r rs]; [reflexivity |].
  rewrite encode_records in *. rewrite !append_assoc, append_cons, append_nil_l in *.
  cbn [scan_once]. change (Ascii.eqb "[" DQUOTE) with false.
  change (Ascii.eqb "[" "{") with false.
  change (Ascii.eqb "[" "[") with true. cbn iota.
  rewrite skip_ws_newline_indent.
  destruct (items_head (separator (S level)) (S level) r rs
              (newline_indent level +:+ "]" +:+ rest)) as [t Ht].
  rewrite Ht. change (skip_ws (String "{" t)) with (String "{" t).
  cbn iota. change (Ascii.eqb "{" "]") with false. cbn iota.
  rewrite <- Ht. rewrite parse_items_records; [done | done | done |].
  cbn [String.length] in Hfuel. rewrite !length_append in *.
  pose proof (newline_indent_length (S level)). lia.
Qed.

(** Decoding the text of a document. *)
Lemma loads_dumps_document (rs : list Record) :
  Forall (fun r => NoDup (map fst r)) rs ->
  loads (dumps (document rs)) = Ret (document rs).
Proof.
  intros Hall. unfold loads, dumps, document.
  set (arr := Arr (map JSONFormat.of_record rs)).
  assert (encode 0 (Obj [("records", arr)])
          = "{" +:+ newline_indent 1
            +:+ (encode_string "records" +:+ ": " +:+ encode 1 arr
                 +:+ newline_indent 0 +:+ "}")) as ->.
  { cbn [encode map join fst snd]. by rewrite !append_assoc. }
  rewrite append_cons, append_nil_l.
  change (skip_ws (String "{" ?x)) with (String "{" x).
  cbn [String.length].
  match goal with
  | |- context [2 * S ?n] => replace (2 * S n) with (S (S (2 * n))) by lia
  end.
  cbn [scan_once].
  change (Ascii.eqb "{" DQUOTE) with false.
  change (Ascii.eqb "{" "{") with true. cbn iota.
  rewrite skip_ws_newline_indent.
  rewrite encode_string_head at 1.
  change (skip_ws (String DQUOTE ?x)) with (String DQUOTE x). cbn iota.
  change (Ascii.eqb DQUOTE "}") with false. cbn iota.
  rewrite skip_ws_encode_string.
  rewrite parse_member with (v := arr).
  - rewrite skip_ws_newline_indent. reflexivity.
  - subst arr.
    destruct (records_head 1 rs (newline_indent 0 +:+ "}")) as [t Ht].
    rewrite Ht.
    change (skip_ws (String "[" t)) with (String "[" t). rewrite <- Ht.
    apply scan_once_records; [done |].
    rewrite !length_append. pose proof (newline_indent_length 1). lia.
Qed.

(** The text of a document has no carriage return. *)
Lemma join_no_CR (sep : string) (parts : list string) :
  contains CR sep = false ->
  Forall (fun p => contains CR p = false) parts ->
  contains CR (join sep parts) = false.
Proof.
  intros Hsep Hparts. induction Hparts as [| p ps Hp Hps IH]; [done |].
  destruct ps as [| q ps]; [done |].
  change (join sep (p :: q :: ps)) with (p +:+ sep +:+ join sep (q :: ps)).
  by rewrite !contains_app, Hp, Hsep, IH.
Qed.

Lemma separator_no_CR (level : nat) : contains CR (separator level) = false.
Proof. unfold separator. by rewrite contains_app, newline_indent_no_CR. Qed.

Lemma encode_record_no_CR (level : nat) (r : Record) :
  contains CR (encode level (JSONFormat.of_record r)) = false.
Proof.
  destruct r as [| kv r]; [done |].
  rewrite encode_of_record, !contains_app, !newline_indent_no_CR.
  rewrite join_no_CR; [done | apply separator_no_CR |].
  apply List.Forall_forall. intros p [kv' [<- _]]%in_map_iff.
  unfold member_text. by rewrite !contains_app, !encode_string_no_CR.
Qed.

Lemma encode_records_no_CR (level : nat) (rs : list Record) :
  contains CR (encode level (Arr (map JSONFormat.of_record rs))) = false.
Proof.
  destruct rs as [| r rs]; [done |].
  rewrite encode_records, !contains_app, !newline_indent_no_CR.
  rewrite join_no_CR; [done | apply separator_no_CR |].
  apply List.Forall_forall. intros p [r' [<- _]]%in_map_iff.
  apply encode_record_no_CR.
Qed.

Lemma dumps_document (rs : list Record) :
  dumps (document rs)
  = "{" +:+ newline_indent 1 +:+ encode_string "records" +:+ ": "
    +:+ encode 1 (Arr (map JSONFormat.of_record rs))
    +:+ newline_indent 0 +:+ "}".
Proof.
  unfold dumps, document. cbn [encode map join fst snd].
  by rewrite !append_assoc.
Qed.

Lemma dumps_document_no_CR (rs : list Record) :
  contains CR (dumps (document rs)) = false.
Proof.
  rewrite dumps_document, !contains_app, !newline_indent_no_CR.
  by rewrite encode_string_no_CR, encode_records_no_CR.
Qed.

(** Reading the text of a document through the translation of line ends. *)
Lemma load_document (rs : list Record) :
  Forall (fun r => NoDup (map fst r)) rs ->
  loads (universal_newlines (dumps (document rs))) = Ret (document rs).
Proof.
  intros Hall. rewrite universal_newlines_id by apply dumps_document_no_CR.
  by apply loads_dumps_document.
Qed.

(** One more record makes the text longer. *)
Lemma join_snoc (sep : string) (parts : list string) (p : string) :
  parts <> [] -> join sep (parts ++ [p]) = join sep parts +:+ sep +:+ p.
Proof.
  induction parts as [| q qs IH]; [done |]. intros _.
  destruct qs as [| q' qs]; [done |].
  change (join sep ((q :: q' :: qs) ++ [p]))
    with (q +:+ sep +:+ join sep ((q' :: qs) ++ [p])).
  rewrite IH by done.
  change (join sep (q :: q' :: qs)) with (q +:+ sep +:+ join sep (q' :: qs)).
  by rewrite !append_assoc.
Qed.

Lemma dumps_document_grows (rs : list Record) (r : Record) :
  String.length (dumps (document rs))
  <= String.length (dumps (document (rs ++ [r]))).
Proof.
  rewrite !dumps_document, !length_append.
  do 4 apply Nat.add_le_mono_l. apply Nat.add_le_mono_r.
  destruct rs as [| r0 rs].
  - change ([] ++ [r]) with [r].
    rewrite (encode_records 1 r []), !length_append. simpl. lia.
  - change ((r0 :: rs) ++ [r]) with (r0 :: (rs ++ [r])).
    rewrite !encode_records, !length_append.
    apply Nat.add_le_mono_l, Nat.add_le_mono_l, Nat.add_le_mono_r.
    change (r0 :: rs ++ [r]) with ((r0 :: rs) ++ [r]).
    rewrite map_app. cbn [map]. rewrite join_snoc by done.
    rewrite !length_append. lia.
Qed.

Lemma drop_all (n : nat) (s : string) :
  String.length s <= n -> Os.drop n s = EmptyString.
Proof.
  revert n. induction s as [| c s IH]; intros [| n] H; simpl in *;
    try done; try lia.
  apply IH. lia.
Qed.

(** From a document back to the records. *)
Lemma string_members_of_record (r : Record) :
  JSONFormat.string_members (map (fun kv => (fst kv, Str (snd kv))) r) = Ret r.
Proof.
  induction r as [| [k v] r IH]; [done |].
  cbn [map JSONFormat.string_members fst snd]. by rewrite IH.
Qed.

Lemma to_records_of_records (rs : list Record) :
  JSONFormat.to_records (map JSONFormat.of_record rs) = Ret rs.
Proof.
  induction rs as [| r rs IH]; [done |].
  cbn [map JSONFormat.to_records JSONFormat.to_record JSONFormat.of_record].
  by rewrite string_members_of_record, IH.
Qed.

Lemma records_of_document (rs : list Record) :
  JSONFormat.records_of (document rs) = Ret rs.
Proof. apply to_records_of_records. Qed.

Lemma append_record_document (rs : list Record) (r : Record) :
  JSONFormat.append_record (document rs) r = Ret (document (rs ++ [r])).
Proof.
  unfold document, JSONFormat.append_record, JSONFormat.append_in.
  change (String.eqb "records" "records") with true. cbn iota.
  by rewrite map_app.
Qed.

End JsonFacts.

(** ** What the formats keep in a file *)

Section Stored.
Import Py.

Lemma csv_text_snoc (rs : list Record) (r : Record) :
  csv_text (rs ++ [r]) = csv_text rs +:+ Csv.writerow (Rec.values r).
Proof.
  unfold csv_text. rewrite append_assoc. f_equal.
  induction rs as [| r0 rs IH];
    [cbn [app fold_right]; by rewrite append_nil_r, append_nil_l |].
  cbn [app fold_right]. by rewrite IH, append_assoc.
Qed.

Lemma categories_safe : Forall csv_safe Rec.categories.
Proof. by repeat constructor. Qed.

(** The rows of a csv data file written from safe records. *)
Lemma read_csv_text (rs : list Record) :
  Forall (fun r => Forall csv_safe (Rec.values r)) rs ->
  Csv.read_rows (universal_newlines (csv_text rs))
  = Ret Rec.categories :: map Ret (map Rec.values rs).
Proof.
  intros Hall. unfold Csv.read_rows, csv_text.
  rewrite read_written_row by apply categories_safe. f_equal.
  induction Hall as [| r rs Hr Hall IH]; [reflexivity |].
  cbn [fold_right map]. by rewrite read_written_row, IH.
Qed.

Lemma fill_well_formed (r : Record) :
  Rec.well_formed r -> CSVFormat.fill [] 0 (Rec.values r) = Ret r.
Proof.
  unfold Rec.well_formed, Rec.categories.
  destruct r as [| [k1 v1] [| [k2 v2] [| [k3 v3] [| kv r]]]]; try done.
  cbn [map fst]. by intros [= -> -> ->].
Qed.

Lemma collect_well_formed (rs acc : list Record) :
  Forall Rec.well_formed rs ->
  CSVFormat.collect acc (map Ret (map Rec.values rs)) = Ret (acc ++ rs).
Proof.
  intros Hall. revert acc.
  induction Hall as [| r rs Hr Hall IH]; intros acc.
  - by rewrite List.app_nil_r.
  - cbn [map CSVFormat.collect]. rewrite fill_well_formed by done.
    rewrite IH. by rewrite <- List.app_assoc.
Qed.

Lemma well_formed_NoDup (r : Record) :
  Rec.well_formed r -> NoDup (map fst r).
Proof.
  unfold Rec.well_formed. intros ->.
  apply (bool_decide_unpack _). by vm_compute.
Qed.

Lemma configFormats_cases (name : string) (format : Format) :
  In (name, format) configFormats ->
  (name = "csv" /\ format = csv_format)
  \/ (name = "json" /\ format = json_format).
Proof.
  intros [[= <- <-] | [[= <- <-] | []]]; [by left | by right].
Qed.

Lemma readable_NoDup (name : string) (rs : list Record) :
  Forall (readable name) rs -> Forall (fun r => NoDup (map fst r)) rs.
Proof.
  apply List.Forall_impl. intros r [Hwf _]. by apply well_formed_NoDup.
Qed.

(** [JSONFormat.write] once the file holds a document: load, append,
    rewrite from the start; the new text covers the old one. *)
Lemma json_rewrite (rs : list Record) (r : Record) (path : string) (fs : FS) :
  Forall (fun r => NoDup (map fst r)) rs ->
  fs !! path = Some (Json.dumps (document rs)) ->
  (let* text := Os.read path in
   let* data := lift (Json.loads (universal_newlines text)) in
   let* data' := lift (JSONFormat.append_record data r) in
   let* _ := Os.overwrite path (Json.dumps data') in
   ret true) fs
  = (Ret true, <[path := Json.dumps (document (rs ++ [r]))]> fs).
Proof.
  intros Hall Hfile.
  unfold bind at 1. unfold Os.read at 1. rewrite Hfile. cbn [default].
  unfold id. unfold bind at 1. rewrite load_document by done. cbn [lift].
  unfold ret at 1. unfold bind at 1.
  rewrite append_record_document. cbn [lift]. unfold ret at 1.
  unfold bind, Os.overwrite, modify, ret. rewrite Hfile. cbn [default].
  unfold id. rewrite drop_all by apply dumps_document_grows.
  by rewrite append_nil_r.
Qed.

(** The effect of [write] and of [getRecords] on a file in the state
    [stored] describes. *)
Lemma write_stored (name : string) (format : Format) (rs : list Record)
    (r : Record) (path : string) (fs : FS) :
  In (name, format) configFormats ->
  Forall (readable name) rs ->
  stored name path rs fs ->
  write format r path fs
  = (Ret true, <[path := stored_text name (rs ++ [r])]> fs).
Proof.
  intros Hin Hall Hst.
  destruct (configFormats_cases _ _ Hin) as [[-> ->] | [-> ->]].
  - cbn [write csv_format]. unfold CSVFormat.write, stored_text.
    change (String.eqb "csv" "csv") with true. cbn iota.
    destruct rs as [| r0 rs]; cbn [stored] in Hst.
    + rewrite (bind_Ret _ _ _ _ _ (isfile_None _ _ Hst)).
      unfold bind, Os.append, modify, ret. rewrite Hst.
      cbn [negb default app]. unfold csv_text. cbn [fold_right].
      by rewrite append_nil_l, append_nil_r.
    + rewrite (bind_Ret _ _ _ _ _ (isfile_Some _ _ _ Hst)).
      unfold bind, Os.append, modify, ret. rewrite Hst.
      cbn [negb default]. unfold stored_text.
      change (String.eqb "csv" "csv") with true. cbn iota.
      unfold id. by rewrite append_nil_l, <- csv_text_snoc.
  - cbn [write json_format]. unfold JSONFormat.write, stored_text.
    change (String.eqb "json" "csv") with false. cbn iota.
    apply readable_NoDup in Hall.
    destruct rs as [| r0 rs]; cbn [stored] in Hst.
    + rewrite (bind_Ret _ _ _ _ _ (isfile_None _ _ Hst)). cbn [negb].
      rewrite (bind_Ret _ _ _ _ tt
                 (eq_refl : Os.write path _ fs
                            = (Ret tt, <[path := Json.dumps (document [])]> fs))).
      rewrite (json_rewrite [] r) by (done || apply lookup_insert_eq).
      by rewrite insert_insert_eq.
    + rewrite (bind_Ret _ _ _ _ _ (isfile_Some _ _ _ Hst)). cbn [negb].
      rewrite (bind_Ret _ _ _ _ tt (eq_refl : ret tt fs = (Ret tt, fs))).
      by apply json_rewrite.
Qed.

Lemma read_stored (name : string) (format : Format) (rs : list Record)
    (path : string) (fs : FS) :
  In (name, format) configFormats ->
  Forall (readable name) rs ->
  stored name path rs fs ->
  getRecords format path fs = (Ret rs, fs).
Proof.
  intros Hin Hall Hst.
  destruct (configFormats_cases _ _ Hin) as [[-> ->] | [-> ->]].
  - cbn [getRecords csv_format]. unfold CSVFormat.getRecords.
    destruct rs as [| r0 rs]; cbn [stored] in Hst.
    + by rewrite (bind_Ret _ _ _ _ _ (isfile_None _ _ Hst)).
    + rewrite (bind_Ret _ _ _ _ _ (isfile_Some _ _ _ Hst)).
      unfold bind at 1. unfold Os.read at 1. rewrite Hst. cbn [default].
      unfold id, stored_text.
      change (String.eqb "csv" "csv") with true. cbn iota.
      rewrite read_csv_text.
      * rewrite collect_well_formed; [done |].
        eapply Forall_impl; [exact Hall | by intros r [Hwf _]].
      * eapply Forall_impl; [exact Hall | intros r [_ Hs]; by apply Hs].
  - cbn [getRecords json_format]. unfold JSONFormat.getRecords.
    apply readable_NoDup in Hall.
    destruct rs as [| r0 rs]; cbn [stored] in Hst.
    + by rewrite (bind_Ret _ _ _ _ _ (isfile_None _ _ Hst)).
    + rewrite (bind_Ret _ _ _ _ _ (isfile_Some _ _ _ Hst)).
      unfold bind at 1. unfold Os.read at 1. rewrite Hst. cbn [default].
      unfold id, stored_text.
      change (String.eqb "json" "csv") with false. cbn iota.
      unfold bind. rewrite load_document by done. cbn [lift].
      unfold ret at 1. by rewrite records_of_document.
Qed.

Lemma stored_insert (name path : string) (rs : list Record) (r : Record)
    (fs : FS) :
  stored name path (rs ++ [r]) (<[path := stored_text name (rs ++ [r])]> fs).
Proof.
  unfold stored. destruct (rs ++ [r]) eqn:E.
  - by destruct rs.
  - apply lookup_insert_eq.
Qed.

End Stored.

(** ** Writing and reading back *)




(** The calls of [add] one after the other, from a data file holding
    [stored_] already. *)
Lemma add_all_stored (db : Database) (format : Format)
    (records stored_ : list Record) (fs : FS) :
  In (currentFormat db, format) configFormats ->
  Forall (readable (currentFormat db)) stored_ ->
  Forall (readable (currentFormat db)) records ->
  stored (currentFormat db) (dataFile db) stored_ fs ->
  exists fs',
    add_all records (world db fs)
    = (Ret (map (fun _ => true) records), world db fs')
    /\ stored (currentFormat db) (dataFile db) (stored_ ++ records) fs'.
Proof.
  intros Hin Hst Hrecords. revert stored_ fs Hst.
  induction Hrecords as [| r records Hr Hrecords IH]; intros stored_ fs Hst Hfs.
  - exists fs. split; [reflexivity | by rewrite List.app_nil_r].
  - destruct (IH (stored_ ++ [r])
                (<[dataFile db := stored_text (currentFormat db) (stored_ ++ [r])]> fs))
      as (fs' & Hrun & Hfs').
    + apply Forall_app. split; [done | by constructor].
    + apply stored_insert.
    + exists fs'. split; [| by rewrite <- List.app_assoc in Hfs'].
      cbn [add_all map].
      assert (add r (world db fs)
              = (Ret true,
                 world db (<[dataFile db :=
                     stored_text (currentFormat db) (stored_ ++ [r])]> fs)))
        as Hadd.
      { unfold add. rewrite (bind_Ret _ _ _ _ _ (get_self_eq db fs)).
        assert (formats (currentFormat db) (world db fs)
                = (Ret format, world db fs)) as Hformat.
        { destruct (configFormats_cases _ _ Hin) as [[-> ->] | [-> ->]];
            reflexivity. }
        rewrite (bind_Ret _ _ _ _ _ Hformat).
        apply on_disk_eq. by apply (write_stored _ _ stored_). }
      rewrite (bind_Ret _ _ _ _ _ Hadd), (bind_Ret _ _ _ _ _ Hrun).
      reflexivity.
Qed.

(** Append monotonicity for the records both formats bring back: after
    the [n] calls of [add], all returning [True], [getRecords] returns the
    [n] records in the order of the calls. *)
Lemma add_all_then_getRecords (db : Database) (records : list Record)
    (fs : FS) :
  supported (currentFormat db) = true ->
  Forall (readable (currentFormat db)) records ->
  fs !! dataFile db = None ->
  exists fs',
    add_all records (world db fs)
    = (Ret (map (fun _ => true) records), world db fs')
    /\ getRecords_db (world db fs') = (Ret records, world db fs').
Proof.
  intros Hsup Hall Hnone.
  assert (exists format, In (currentFormat db, format) configFormats
                         /\ forall fs0, formats (currentFormat db) (world db fs0)
                                        = (Ret format, world db fs0))
    as (format & Hin & Hformat).
  { destruct (supported_cases _ Hsup) as [-> | ->];
      eexists; (split; [| reflexivity]); [by left | right; by left]. }
  destruct (add_all_stored db format records [] fs Hin) as (fs' & Hrun & Hfs');
    [constructor | done | done |].
  exists fs'. split; [done |].
  unfold getRecords_db. rewrite (bind_Ret _ _ _ _ _ (get_self_eq db fs')).
  rewrite (bind_Ret _ _ _ _ _ (Hformat fs')).
  apply on_disk_eq. by apply (read_stored (currentFormat db)).
Qed.

(** C6. A record of the data model whose name holds a carriage return is
    added to an empty csv database with success, and [getRecords] returns
    a different record: the carriage return has become a line feed. *)
Theorem add_then_getRecords_carriage_return :
  let r := Rec.make ("A" +:+ Py.chr Py.CR +:+ "B") "x" "y" in
  let r' := Rec.make ("A" +:+ Py.chr Py.LF +:+ "B") "x" "y" in
  Rec.well_formed r
  /\ fst ((let* ok := add r in let* records := getRecords_db in
           ret (ok, records)) (world (init "db" "csv") ∅))
     = Ret (true, [r'])
  /\ r' <> r.
Proof.
  split; [reflexivity |]. split; [vm_compute; reflexivity | discriminate].
Qed.

(** ** The object along the operations *)

Lemma keeps_self_ret {A} (a : A) : keeps_self (ret a).
Proof. by intros w. Qed.

Lemma keeps_self_raise {A} (e : exn) : keeps_self (raise (A := A) e).
Proof. by intros w. Qed.

Lemma keeps_self_lift {A} (r : res A) : keeps_self (lift r).
Proof. by destruct r. Qed.

Lemma keeps_self_get_self : keeps_self get_self.
Proof. by intros w. Qed.

Lemma keeps_self_formats (name : string) : keeps_self (formats name).
Proof. intros w. unfold formats. by destruct (find _ _). Qed.

Lemma keeps_self_on_disk {A} (m : M FS A) : keeps_self (on_disk m).
Proof. intros w. unfold on_disk. by destruct (m (disk w)). Qed.

Lemma keeps_self_bind {A B} (m : M World A) (k : A -> M World B) :
  keeps_self m -> (forall a, keeps_self (k a)) -> keeps_self (bind m k).
Proof.
  intros Hm Hk w. unfold bind. specialize (Hm w).
  destruct (m w) as [[a | e] w1]; simpl in *; [| done].
  by rewrite Hk.
Qed.

Lemma keeps_self_for_each {A} (xs : list A) (body : A -> M World unit) :
  (forall x, keeps_self (body x)) -> keeps_self (for_each xs body).
Proof.
  intros Hbody. induction xs as [| x xs IH]; [apply keeps_self_ret |].
  apply keeps_self_bind; [apply Hbody | by intros _].
Qed.

Lemma keeps_self_if {A} (b : bool) (m1 m2 : M World A) :
  keeps_self m1 -> keeps_self m2 -> keeps_self (if b then m1 else m2).
Proof. by destruct b. Qed.

Ltac solve_keeps_self :=
  repeat first
    [ apply keeps_self_ret | apply keeps_self_raise | apply keeps_self_lift
    | apply keeps_self_get_self | apply keeps_self_formats
    | apply keeps_self_on_disk
    | apply keeps_self_for_each; intros ?
    | apply keeps_self_bind; [| intros ?]
    | apply keeps_self_if ].

(** [add], [importRecords], [getRecords], [clean] and [filter] leave the
    attributes of the object alone. *)
Lemma add_keeps_self (r : Record) : keeps_self (add r).
Proof. unfold add. solve_keeps_self. Qed.

Lemma importRecords_keeps_self (fName : string) :
  keeps_self (importRecords fName).
Proof.
  unfold importRecords. apply keeps_self_bind; [solve_keeps_self | intros db].
  destruct (nth_error _ 1); solve_keeps_self.
Qed.

Lemma getRecords_keeps_self : keeps_self getRecords_db.
Proof. unfold getRecords_db. solve_keeps_self. Qed.

Lemma clean_keeps_self : keeps_self clean.
Proof. unfold clean. solve_keeps_self. Qed.

Lemma filter_keeps_self (field pat : string) : keeps_self (filter field pat).
Proof. unfold filter. solve_keeps_self; apply getRecords_keeps_self. Qed.

(** What holds of the state a sequence ends in, from what holds of the
    states its two parts end in. *)
Lemma bind_post {A B} (m : M World A) (k : A -> M World B) (w : World)
    (Q : World -> Prop) :
  (forall e w1, m w = (Raise e, w1) -> Q w1) ->
  (forall a w1, m w = (Ret a, w1) -> Q (snd (k a w1))) ->
  Q (snd (bind m k w)).
Proof.
  intros Hraise Hret. unfold bind.
  destruct (m w) as [[a | e] w1]; [by apply Hret | by apply (Hraise e)].
Qed.

Lemma keeps_self_post {A} (m : M World A) (w w1 : World) (r : res A) :
  keeps_self m -> m w = (r, w1) -> self w1 = self w.
Proof. intros Hm E. specialize (Hm w). by rewrite E in Hm. Qed.

(** X11. With a data file in place, [convert] keeps the invariant
    whatever it returns or raises: it changes the object on success only,
    and then sets the path from the base name and the new format. *)
Lemma convert_with_file_keeps_invariant (w : World) (newFormat : string) :
  dataFile_derived (self w) ->
  is_Some (disk w !! dataFile (self w)) ->
  dataFile_derived (self (snd (convert newFormat w))).
Proof.
  intros Hinv [text Hfile]. destruct w as [db fs]; simpl in *.
  fold (world db fs). unfold convert.
  rewrite (bind_Ret _ _ _ _ _ (get_self_eq db fs)).
  destruct (String.eqb newFormat (currentFormat db)); [done |].
  rewrite (bind_Ret _ _ _ _ _ (on_disk_eq _ db _ _ _ (isfile_Some _ _ _ Hfile))).
  cbn [negb]. destruct (supported newFormat); [| done].
  assert (forall w', self w' = db -> dataFile_derived (self w')) as Hdb
    by (by intros w' ->).
  assert (self (world db fs) = db) as S0 by reflexivity.
  pose proof (fun A (m : M World A) (Hm : keeps_self m) w0 w1 r
                (S : self w0 = db) (E : m w0 = (r, w1)) =>
                eq_trans (keeps_self_post m w0 w1 r Hm E) S) as Hstep.
  apply bind_post; [intros e w1 E | intros current w1 E];
    (assert (self w1 = db) as S1
       by (refine (Hstep _ _ _ _ _ _ S0 E); solve_keeps_self));
    [by apply Hdb |].
  apply bind_post; [intros e w2 E2 | intros records w2 E2];
    (assert (self w2 = db) as S2
       by (refine (Hstep _ _ _ _ _ _ S1 E2); solve_keeps_self));
    [by apply Hdb |].
  apply bind_post; [intros e w3 E3 | intros stale w3 E3];
    (assert (self w3 = db) as S3
       by (refine (Hstep _ _ _ _ _ _ S2 E3); solve_keeps_self));
    [by apply Hdb |].
  apply bind_post; [intros e w4 E4 | intros [] w4 E4];
    (assert (self w4 = db) as S4
       by (refine (Hstep _ _ _ _ _ _ S3 E4); solve_keeps_self));
    [by apply Hdb |].
  apply bind_post; [intros e w5 E5 | intros [] w5 E5];
    (assert (self w5 = db) as S5
       by (refine (Hstep _ _ _ _ _ _ S4 E5); solve_keeps_self));
    [by apply Hdb |].
  apply bind_post; [intros e w6 E6 | intros target w6 E6];
    (assert (self w6 = db) as S6
       by (refine (Hstep _ _ _ _ _ _ S5 E6); solve_keeps_self));
    [by apply Hdb |].
  apply bind_post; [intros e w7 E7 | intros written w7 E7];
    (assert (self w7 = db) as S7
       by (refine (Hstep _ _ _ _ _ _ S6 E7); solve_keeps_self));
    [by apply Hdb |].
  destruct (Rec.list_eqb written records).
  - apply bind_post; [intros e w8 E8 | intros [] w8 E8];
      (assert (self w8 = db) as S8
         by (refine (Hstep _ _ _ _ _ _ S7 E8); solve_keeps_self));
      [by apply Hdb | reflexivity].
  - apply bind_post; [intros e w8 E8 | intros [] w8 E8];
      (assert (self w8 = db) as S8
         by (refine (Hstep _ _ _ _ _ _ S7 E8); solve_keeps_self));
      by apply Hdb.
Qed.

(** X14. A name whose second dot-separated part is no format is refused,
    and nothing is read or written. *)
Lemma importRecords_unsupported (fName format : string) (w : World) :
  nth_error (Py.split Py.DOT (Py.strip fName)) 1 = Some format ->
  supported format = false ->
  importRecords fName w = (Ret false, w).
Proof.
  intros Hpart Hsup. destruct w as [db fs]. fold (world db fs).
  unfold importRecords. rewrite (bind_Ret _ _ _ _ _ (get_self_eq db fs)).
  by rewrite Hpart, Hsup.
Qed.

(** ** The decoder never runs out of fuel *)

Section JsonFuel.
Import Py Json.

Lemma skip_ws_length (s : string) :
  String.length (skip_ws s) <= String.length s.
Proof.
  induction s as [| c s IH]; [done |].
  simpl. destruct (is_ws c); simpl; lia.
Qed.

Lemma skip_ws_cons_length (s rest : string) (c : ascii) :
  skip_ws s = String c rest -> String.length rest < String.length s.
Proof.
  intros H. pose proof (skip_ws_length s) as L. rewrite H in L.
  simpl in L. lia.
Qed.

(** [scanstring] consumes the closing quote at least, and fails with
    exceptions of its own only. *)
Lemma scanstring_spec (n : nat) (s : string) :
  String.length s <= n ->
  scanstring s <> Raise RecursionError
  /\ forall str rest, scanstring s = Ret (str, rest) ->
                      String.length rest < String.length s.
Proof.
  revert s. induction n as [| n IH]; intros s Hn.
  - destruct s; simpl in Hn; [| lia]. split; [done | discriminate].
  - destruct s as [| c s]; [split; [done | discriminate] |].
    simpl in Hn. cbn [scanstring].
    destruct (Ascii.eqb c DQUOTE).
    { split; [done |]. intros str rest [= <- <-]. simpl. lia. }
    assert (forall (x : ascii) (t : string),
              String.length t <= n ->
              match scanstring t with
              | Ret (str, rest) => Ret (String x str, rest)
              | Raise err => Raise err
              end <> Raise RecursionError
              /\ forall str rest,
                   match scanstring t with
                   | Ret (str, rest) => Ret (String x str, rest)
                   | Raise err => Raise err
                   end = Ret (str, rest) ->
                   String.length rest < String.length t) as Hsimple.
    { intros x t Ht. destruct (IH t Ht) as [Hne Hlen].
      destruct (scanstring t) as [[str rest] | e]; split; try done.
      intros str' rest' [= <- <-]. by apply (Hlen str). }
    destruct (Ascii.eqb c BACKSLASH).
    + destruct s as [| e s]; [split; [done | discriminate] |].
      simpl in Hn.
      assert (forall x : ascii,
                match scanstring s with
                | Ret (str, rest) => Ret (String x str, rest)
                | Raise err => Raise err
                end <> Raise RecursionError
                /\ forall str rest,
                     match scanstring s with
                     | Ret (str, rest) => Ret (String x str, rest)
                     | Raise err => Raise err
                     end = Ret (str, rest) ->
                     String.length rest < String.length (String c (String e s)))
        as Hesc.
      { intros x. destruct (Hsimple x s ltac:(lia)) as [Hne Hlen].
        split; [done |]. intros str rest E. specialize (Hlen _ _ E).
        simpl. lia. }
      repeat (match goal with
              | |- context [if ?b then _ else _] => destruct b
              end; [apply Hesc |]).
      destruct (Ascii.eqb e "u"); [| split; [done | discriminate]].
      destruct s as [| h1 [| h2 [| h3 [| h4 s5]]]];
        try (split; [done | discriminate]).
      simpl in Hn.
      destruct (decode_uxxxx h1 h2 h3 h4) as [x | err] eqn:Hdec.
      * destruct (Hsimple x s5 ltac:(lia)) as [Hne Hlen].
        split; [done |]. intros str rest E. specialize (Hlen _ _ E).
        simpl. lia.
      * split; [| discriminate]. unfold decode_uxxxx in Hdec.
        repeat case_match; congruence.
    + destruct (N_of_ascii c <? 32)%N; [split; [done | discriminate] |].
      destruct (Hsimple c s ltac:(lia)) as [Hne Hlen].
      split; [done |]. intros str rest E. specialize (Hlen _ _ E).
      simpl. lia.
Qed.

Lemma strip_prefix_length (prefix s rest : string) :
  strip_prefix prefix s = Some rest ->
  String.length s = String.length prefix + String.length rest.
Proof.
  revert s. induction prefix as [| a p IH]; intros s.
  - simpl. by intros [= ->].
  - destruct s as [| b s]; [done |]. simpl.
    destruct (Ascii.eqb a b); [| done]. intros H. by rewrite (IH _ H).
Qed.

Lemma scan_literal_spec (s : string) :
  scan_literal s <> Raise RecursionError
  /\ forall v rest, scan_literal s = Ret (v, rest) ->
                    String.length rest < String.length s.
Proof.
  unfold scan_literal.
  destruct (strip_prefix "null" s) eqn:E1.
  { split; [done |]. intros v rest [= <- <-].
    rewrite (strip_prefix_length _ _ _ E1). simpl. lia. }
  destruct (strip_prefix "true" s) eqn:E2.
  { split; [done |]. intros v rest [= <- <-].
    rewrite (strip_prefix_length _ _ _ E2). simpl. lia. }
  destruct (strip_prefix "false" s) eqn:E3.
  { split; [done |]. intros v rest [= <- <-].
    rewrite (strip_prefix_length _ _ _ E3). simpl. lia. }
  split; repeat case_match; done.
Qed.

Lemma scan_ok_raise (e : exn) (s : string) :
  e <> RecursionError -> scan_ok (Raise e) s.
Proof. intros He. split; [congruence | discriminate]. Qed.

Lemma scan_ok_ret (v : value) (rest s : string) :
  String.length rest < String.length s -> scan_ok (Ret (v, rest)) s.
Proof. intros H. split; [done |]. by intros ? ? [= <- <-]. Qed.

Lemma scan_ok_shorter (result : res (value * string)) (t s : string) :
  String.length t <= String.length s -> scan_ok result t -> scan_ok result s.
Proof.
  intros Hlen [Hne Hret]. split; [done |].
  intros v rest E. specialize (Hret _ _ E). lia.
Qed.

Lemma scan_fuel (fuel : nat) :
  (forall s, 2 * String.length s + 1 <= fuel -> scan_ok (scan_once fuel s) s)
  /\ (forall acc s, 2 * String.length s + 1 <= fuel ->
                    scan_ok (parse_members fuel acc s) s)
  /\ (forall acc s, 2 * String.length s + 2 <= fuel ->
                    scan_ok (parse_items fuel acc s) s).
Proof.
  induction fuel as [| fuel (IHscan & IHmembers & IHitems)].
  { repeat split; intros; lia. }
  split; [| split].
  - intros s Hfuel. cbn [scan_once].
    destruct s as [| c s]; [by apply scan_ok_raise |].
    simpl in Hfuel.
    destruct (Ascii.eqb c DQUOTE).
    { destruct (scanstring_spec _ s (le_n _)) as [Hne Hlen].
      destruct (scanstring s) as [[str rest] | e].
      - apply scan_ok_ret. specialize (Hlen _ _ eq_refl). simpl. lia.
      - apply scan_ok_raise. congruence. }
    destruct (Ascii.eqb c "{").
    { destruct (skip_ws s) as [| c' rest] eqn:Ews;
        [by apply scan_ok_raise |].
      pose proof (skip_ws_cons_length _ _ _ Ews) as Hws.
      destruct (Ascii.eqb c' "}").
      - apply scan_ok_ret. simpl. lia.
      - apply (scan_ok_shorter _ (String c' rest)); [simpl; lia |].
        apply IHmembers. simpl. lia. }
    destruct (Ascii.eqb c "[").
    { destruct (skip_ws s) as [| c' rest] eqn:Ews;
        [by apply scan_ok_raise |].
      pose proof (skip_ws_cons_length _ _ _ Ews) as Hws.
      destruct (Ascii.eqb c' "]").
      - apply scan_ok_ret. simpl. lia.
      - apply (scan_ok_shorter _ (String c' rest)); [simpl; lia |].
        apply IHitems. simpl. lia. }
    apply scan_literal_spec.
  - intros acc s Hfuel. cbn [parse_members].
    destruct s as [| c s]; [by apply scan_ok_raise |].
    simpl in Hfuel.
    destruct (Ascii.eqb c DQUOTE); [| by apply scan_ok_raise].
    destruct (scanstring_spec _ s (le_n _)) as [Hne Hlen].
    destruct (scanstring s) as [[key rest] | e];
      [| apply scan_ok_raise; congruence].
    specialize (Hlen _ _ eq_refl).
    destruct (skip_ws rest) as [| c1 rest1] eqn:Ews1;
      [by apply scan_ok_raise |].
    pose proof (skip_ws_cons_length _ _ _ Ews1) as Hws1.
    destruct (Ascii.eqb c1 ":"); [| by apply scan_ok_raise].
    pose proof (skip_ws_length rest1) as Hws2.
    destruct (IHscan (skip_ws rest1) ltac:(lia)) as [Hne2 Hlen2].
    destruct (scan_once fuel (skip_ws rest1)) as [[v rest2] | e];
      [| apply scan_ok_raise; congruence].
    specialize (Hlen2 _ _ eq_refl).
    destruct (skip_ws rest2) as [| c2 rest3] eqn:Ews3;
      [by apply scan_ok_raise |].
    pose proof (skip_ws_cons_length _ _ _ Ews3) as Hws3.
    destruct (Ascii.eqb c2 "}"); [apply scan_ok_ret; simpl; lia |].
    destruct (Ascii.eqb c2 ","); [| by apply scan_ok_raise].
    pose proof (skip_ws_length rest3) as Hws4.
    apply (scan_ok_shorter _ (skip_ws rest3)); [simpl; lia |].
    apply IHmembers. lia.
  - intros acc s Hfuel. cbn [parse_items].
    destruct (IHscan s ltac:(lia)) as [Hne Hlen].
    destruct (scan_once fuel s) as [[v rest] | e];
      [| apply scan_ok_raise; congruence].
    specialize (Hlen _ _ eq_refl).
    destruct (skip_ws rest) as [| c rest1] eqn:Ews;
      [by apply scan_ok_raise |].
    pose proof (skip_ws_cons_length _ _ _ Ews) as Hws.
    destruct (Ascii.eqb c "]"); [apply scan_ok_ret; lia |].
    destruct (Ascii.eqb c ","); [| by apply scan_ok_raise].
    pose proof (skip_ws_length rest1) as Hws1.
    apply (scan_ok_shorter _ (skip_ws rest1)); [lia |].
    apply IHitems. lia.
Qed.

(** [json.loads] never fails for want of fuel. *)
Lemma loads_fuel (text : string) : loads text <> Raise RecursionError.
Proof.
  unfold loads.
  pose proof (skip_ws_length text) as Hws.
  destruct (proj1 (scan_fuel (S (2 * String.length text))) (skip_ws text)
              ltac:(lia)) as [Hne _].
  destruct (scan_once _ (skip_ws text)) as [[v rest] | e]; [| congruence].
  by destruct (skip_ws rest).
Qed.

End JsonFuel.

(** ** The fuel of [translate] *)

Section FnmatchFuel.
Import Py Fnmatch.

Lemma until_bracket_length (s stuff rest : string) :
  until_bracket s = Some (stuff, rest) ->
  String.length rest < String.length s.
Proof.
  revert stuff rest. induction s as [| c s IH]; intros stuff rest; [done |].
  simpl. destruct (Ascii.eqb c "]").
  - intros [= <- <-]. lia.
  - destruct (until_bracket s) as [[stuff' rest'] |]; [| done].
    intros [= <- <-]. specialize (IH _ _ eq_refl). lia.
Qed.

Lemma find_class_length (s stuff rest : string) (neg : bool) :
  find_class s = Some (neg, stuff, rest) ->
  String.length rest < String.length s.
Proof.
  assert (forall (b : bool) (s1 : string),
            match s1 with
            | String c s2 =>
                if Ascii.eqb c "]" then
                  match until_bracket s2 with
                  | Some (stuff, rest) => Some (b, String c stuff, rest)
                  | None => None
                  end
                else match until_bracket s1 with
                     | Some (stuff, rest) => Some (b, stuff, rest)
                     | None => None
                     end
            | EmptyString => None
            end = Some (neg, stuff, rest) ->
            String.length rest < String.length s1) as Hbody.
  { intros b [| c s2]; [done |].
    destruct (Ascii.eqb c "]").
    - destruct (until_bracket s2) as [[stuff' rest'] |] eqn:E; [| done].
      intros [= <- <- <-]. apply until_bracket_length in E. simpl. lia.
    - destruct (until_bracket (String c s2)) as [[stuff' rest'] |] eqn:E;
        [| done].
      intros [= <- <- <-]. by apply until_bracket_length in E. }
  unfold find_class. destruct s as [| c s1]; [done |].
  destruct (Ascii.eqb c "!").
  - intros H. apply (Hbody true s1) in H. simpl. lia.
  - exact (Hbody false (String c s1)).
Qed.

(** Fuel beyond the length of the pattern changes nothing: the length is
    enough to translate the whole of it. *)
Lemma translate_aux_fuel (n m : nat) (pat : string) :
  String.length pat <= n -> String.length pat <= m ->
  translate_aux n pat = translate_aux m pat.
Proof.
  revert m pat. induction n as [| n IH]; intros m pat Hn Hm.
  - destruct pat; simpl in Hn; [| lia]. by destruct m.
  - destruct pat as [| c rest]; [by destruct m |].
    destruct m as [| m]; simpl in Hn, Hm; [lia |].
    cbn [translate_aux].
    destruct (Ascii.eqb c "*"); [f_equal; apply IH; lia |].
    destruct (Ascii.eqb c "?"); [f_equal; apply IH; lia |].
    destruct (Ascii.eqb c "["); [| f_equal; apply IH; lia].
    destruct (find_class rest) as [[[neg stuff] rest'] |] eqn:E.
    + apply find_class_length in E. f_equal. apply IH; lia.
    + f_equal. apply IH; lia.
Qed.

End FnmatchFuel.

(** * Further properties of the storage layer *)


(** ** Helpers on the state of the data file *)

Lemma formats_unsupported {S} (name : string) (s : S) :
  supported name = false -> formats name s = (Raise KeyError, s).
Proof.
  unfold supported, formats. simpl. rewrite !orb_false_iff.
  intros (H1 & H2 & _). by rewrite H1, H2.
Qed.

Lemma formats_In {S} (name : string) (s : S) :
  supported name = true ->
  exists format, In (name, format) configFormats
                 /\ forall s' : S, formats name s' = (Ret format, s').
Proof.
  intros Hsup. destruct (supported_cases _ Hsup) as [-> | ->];
    eexists; (split; [| reflexivity]); [by left | right; by left].
Qed.



Lemma clean_run (db : Database) (fs : FS) :
  clean (world db fs) = (Ret tt, world db (delete (dataFile db) fs)).
Proof.
  unfold clean. rewrite (bind_Ret _ _ _ _ _ (get_self_eq db fs)).
  destruct (fs !! dataFile db) as [text |] eqn:E.
  - rewrite (bind_Ret _ _ _ _ _ (on_disk_eq _ db _ _ _ (isfile_Some _ _ _ E))).
    apply on_disk_eq. by apply (remove_Some _ text).
  - rewrite (bind_Ret _ _ _ _ _ (on_disk_eq _ db _ _ _ (isfile_None _ _ E))).
    by rewrite delete_id.
Qed.

(** ** Cleaning *)

(** X1. [clean] never raises; afterwards the data file is absent, every
    other file and the object are as before, and a second [clean] changes
    nothing. *)
Theorem clean_removes_data_file (w : World) :
  exists w',
    clean w = (Ret tt, w')
    /\ self w' = self w
    /\ disk w' !! dataFile (self w) = None
    /\ (forall p, p <> dataFile (self w) -> disk w' !! p = disk w !! p)
    /\ clean w' = (Ret tt, w').
Proof.
  destruct w as [db fs]. fold (world db fs). eexists.
  split; [apply clean_run |]. cbn [self disk world].
  repeat split.
  - apply lookup_delete_eq.
  - intros p Hp. by apply lookup_delete_ne.
  - rewrite clean_run. by rewrite delete_delete_eq.
Qed.



(** ** Adding *)



(** X4. A database built with a format that is not supported is built all
    the same; [add], [getRecords] and [filter] then raise [KeyError] and
    change nothing. *)
Theorem unsupported_format_raises (name fmt : string) (fs : FS) (r : Record)
    (field pat : string) :
  supported fmt = false ->
  add r (world (init name fmt) fs) = (Raise KeyError, world (init name fmt) fs)
  /\ getRecords_db (world (init name fmt) fs)
     = (Raise KeyError, world (init name fmt) fs)
  /\ filter field pat (world (init name fmt) fs)
     = (Raise KeyError, world (init name fmt) fs).
Proof.
  intros Hsup.
  assert (getRecords_db (world (init name fmt) fs)
          = (Raise KeyError, world (init name fmt) fs)) as Hget.
  { unfold getRecords_db. rewrite (bind_Ret _ _ _ _ _ (get_self_eq _ fs)).
    apply bind_Raise. by apply formats_unsupported. }
  repeat split; [| done |].
  - unfold add. rewrite (bind_Ret _ _ _ _ _ (get_self_eq _ fs)).
    apply bind_Raise. by apply formats_unsupported.
  - unfold filter. by apply bind_Raise.
Qed.

Lemma unsupported_format_raises_witness :
  add john_doe (world (init "db" "xml") ∅)
  = (Raise KeyError, world (init "db" "xml") ∅)
  /\ getRecords_db (world (init "db" "xml") ∅)
     = (Raise KeyError, world (init "db" "xml") ∅)
  /\ filter "name" "*" (world (init "db" "xml") ∅)
     = (Raise KeyError, world (init "db" "xml") ∅).
Proof.
  apply (unsupported_format_raises "db" "xml" ∅ john_doe "name" "*").
  reflexivity.
Defined.

(** ** What the operations leave alone *)

Lemma read_only_ret {S A} (a : A) : read_only (S := S) (ret a).
Proof. by intros s. Qed.

Lemma read_only_raise {S A} (e : exn) : read_only (S := S) (raise (A := A) e).
Proof. by intros s. Qed.

Lemma read_only_lift {S A} (r : res A) : read_only (S := S) (lift r).
Proof. by destruct r. Qed.

Lemma read_only_bind {S A B} (m : M S A) (k : A -> M S B) :
  read_only m -> (forall a, read_only (k a)) -> read_only (bind m k).
Proof.
  intros Hm Hk s. unfold bind. specialize (Hm s).
  destruct (m s) as [[a | e] s1]; simpl in *; subst; [apply Hk | done].
Qed.

Lemma read_only_on_disk {A} (m : M FS A) : read_only m -> read_only (on_disk m).
Proof.
  intros Hm [db fs]. unfold on_disk. specialize (Hm fs). simpl.
  destruct (m fs) as [r fs']. simpl in *. by subst.
Qed.

Lemma read_only_formats {S} (name : string) : read_only (S := S) (formats name).
Proof. intros s. unfold formats. by destruct (find _ _). Qed.

Lemma csv_getRecords_read_only (path : string) :
  read_only (CSVFormat.getRecords path).
Proof.
  unfold CSVFormat.getRecords.
  apply read_only_bind; [by intros fs | intros []]; [| apply read_only_ret].
  apply read_only_bind; [by intros fs | intros text].
  destruct (Csv.read_rows _) as [| [header | e] rows];
    [apply read_only_raise | apply read_only_lift | apply read_only_raise].
Qed.

Lemma json_getRecords_read_only (path : string) :
  read_only (JSONFormat.getRecords path).
Proof.
  unfold JSONFormat.getRecords.
  apply read_only_bind; [by intros fs | intros []]; [| apply read_only_ret].
  apply read_only_bind; [by intros fs | intros text].
  apply read_only_bind; [apply read_only_lift | intros data].
  apply read_only_lift.
Qed.

(** The formats of the registry, and no other, come out of [formats]. *)
Lemma formats_inv {S} (name : string) (s s' : S) (format : Format) :
  formats name s = (Ret format, s') ->
  s' = s /\ In (name, format) configFormats.
Proof.
  unfold formats, configFormats. cbn [find fst].
  destruct (String.eqb_spec "csv" name) as [<- | _].
  { intros [= <- <-]. split; [done | by left]. }
  destruct (String.eqb_spec "json" name) as [<- | _]; [| discriminate].
  intros [= <- <-]. split; [done | right; by left].
Qed.

Lemma format_getRecords_read_only (name : string) (format : Format)
    (path : string) :
  In (name, format) configFormats -> read_only (getRecords format path).
Proof.
  intros Hin. destruct (configFormats_cases _ _ Hin) as [[-> ->] | [-> ->]].
  - apply csv_getRecords_read_only.
  - apply json_getRecords_read_only.
Qed.

Lemma getRecords_db_read_only : read_only getRecords_db.
Proof.
  unfold getRecords_db.
  apply read_only_bind; [by intros w | intros db].
  intros w. unfold bind.
  destruct (formats (currentFormat db) w) as [[format | e] w1] eqn:E.
  - apply formats_inv in E as [-> Hin].
    by apply read_only_on_disk, (format_getRecords_read_only _ _ _ Hin).
  - pose proof (read_only_formats (currentFormat db) w) as H.
    by rewrite E in H.
Qed.

(** X5. Reading never writes: [getRecords] and [filter] leave the object
    and every file as they were, also when they raise. *)
Theorem reading_changes_nothing (w : World) (field pat : string) :
  snd (getRecords_db w) = w /\ snd (filter field pat w) = w.
Proof.
  split; [apply getRecords_db_read_only |].
  unfold filter. apply read_only_bind; [apply getRecords_db_read_only |].
  intros entries. apply read_only_lift.
Qed.

Lemma touches_only_ret {A} (P : string -> Prop) (a : A) :
  touches_only P (ret a).
Proof. by intros fs p. Qed.

Lemma touches_only_lift {A} (P : string -> Prop) (r : res A) :
  touches_only P (lift r).
Proof. by destruct r. Qed.

Lemma touches_only_read_only {A} (P : string -> Prop) (m : M FS A) :
  read_only m -> touches_only P m.
Proof. intros Hm fs p _. by rewrite Hm. Qed.

Lemma touches_only_bind {A B} (P : string -> Prop) (m : M FS A)
    (k : A -> M FS B) :
  touches_only P m -> (forall a, touches_only P (k a)) ->
  touches_only P (bind m k).
Proof.
  intros Hm Hk fs p Hp. unfold bind. specialize (Hm fs p Hp).
  destruct (m fs) as [[a | e] fs1]; simpl in *; [| done].
  by rewrite Hk.
Qed.

Lemma touches_only_modify_insert (P : string -> Prop) (path : string)
    (text : FS -> string) :
  P path -> touches_only P (modify (fun fs => <[path := text fs]> fs)).
Proof.
  intros Hpath fs p Hp. simpl. apply lookup_insert_ne. by intros ->.
Qed.

Lemma touches_only_remove (P : string -> Prop) (path : string) :
  P path -> touches_only P (Os.remove path).
Proof.
  intros Hpath fs p Hp. unfold Os.remove.
  destruct (fs !! path); [| done]. simpl. apply lookup_delete_ne. by intros ->.
Qed.

Lemma csv_write_touches_only (P : string -> Prop) (r : Record) (path : string) :
  P path -> touches_only P (CSVFormat.write r path).
Proof.
  intros Hpath. unfold CSVFormat.write.
  apply touches_only_bind; [by apply touches_only_read_only | intros exists_].
  apply touches_only_bind; [| intros _; apply touches_only_ret].
  by apply (touches_only_modify_insert P path
              (fun fs => default EmptyString (fs !! path) +:+ _)).
Qed.

Lemma json_write_touches_only (P : string -> Prop) (r : Record) (path : string) :
  P path -> touches_only P (JSONFormat.write r path).
Proof.
  intros Hpath. unfold JSONFormat.write.
  apply touches_only_bind; [by apply touches_only_read_only | intros exists_].
  apply touches_only_bind.
  { destruct (negb exists_); [| apply touches_only_ret].
    by apply (touches_only_modify_insert P path (fun _ => _)). }
  intros _. apply touches_only_bind; [by apply touches_only_read_only |].
  intros text. apply touches_only_bind; [apply touches_only_lift |].
  intros data. apply touches_only_bind; [apply touches_only_lift |].
  intros data'. apply touches_only_bind; [| intros _; apply touches_only_ret].
  by apply (touches_only_modify_insert P path
              (fun fs => _ +:+ Os.drop _ (default EmptyString (fs !! path)))).
Qed.

Lemma format_write_touches_only (P : string -> Prop) (name : string)
    (format : Format) (r : Record) (path : string) :
  In (name, format) configFormats -> P path ->
  touches_only P (write format r path).
Proof.
  intros Hin Hpath.
  destruct (configFormats_cases _ _ Hin) as [[-> ->] | [-> ->]].
  - by apply csv_write_touches_only.
  - by apply json_write_touches_only.
Qed.

Lemma changes_only_ret {A} (P : string -> Prop) (a : A) :
  changes_only P (ret a).
Proof. by intros w p. Qed.

Lemma changes_only_read_only {A} (P : string -> Prop) (m : M World A) :
  read_only m -> changes_only P m.
Proof. intros Hm w p _. by rewrite Hm. Qed.

Lemma changes_only_bind {A B} (P : string -> Prop) (m : M World A)
    (k : A -> M World B) :
  changes_only P m -> (forall a, changes_only P (k a)) ->
  changes_only P (bind m k).
Proof.
  intros Hm Hk w p Hp. unfold bind. specialize (Hm w p Hp).
  destruct (m w) as [[a | e] w1]; simpl in *; [| done].
  by rewrite Hk.
Qed.

Lemma changes_only_on_disk {A} (P : string -> Prop) (m : M FS A) :
  touches_only P m -> changes_only P (on_disk m).
Proof.
  intros Hm [db fs] p Hp. unfold on_disk. specialize (Hm fs p Hp). simpl.
  by destruct (m fs).
Qed.

Lemma changes_only_for_each {A} (P : string -> Prop) (xs : list A)
    (body : A -> M World unit) :
  (forall x, changes_only P (body x)) -> changes_only P (for_each xs body).
Proof.
  intros Hbody. induction xs as [| x xs IH]; [apply changes_only_ret |].
  apply changes_only_bind; [apply Hbody | by intros _].
Qed.

Lemma changes_only_set_self {P : string -> Prop} (db : Database) :
  changes_only P (set_self db).
Proof. by intros w p. Qed.

(** A format looked up in the registry is one of the registry. *)
Lemma changes_only_formats {A} (P : string -> Prop) (name : string)
    (k : Format -> M World A) :
  (forall format, In (name, format) configFormats -> changes_only P (k format)) ->
  changes_only P (bind (formats name) k).
Proof.
  intros Hk w p Hp. unfold bind.
  destruct (formats name w) as [[format | e] w1] eqn:E.
  - apply formats_inv in E as [-> Hin]. by apply Hk.
  - pose proof (read_only_formats name w) as H. rewrite E in H.
    simpl in *. by subst.
Qed.

Lemma changes_only_format_write (P : string -> Prop) (name : string)
    (format : Format) (r : Record) (path : string) :
  In (name, format) configFormats -> P path ->
  changes_only P (on_disk (write format r path)).
Proof.
  intros Hin Hpath.
  by apply changes_only_on_disk, (format_write_touches_only P name).
Qed.

Lemma changes_only_format_getRecords (P : string -> Prop) (name : string)
    (format : Format) (path : string) :
  In (name, format) configFormats ->
  changes_only P (on_disk (getRecords format path)).
Proof.
  intros Hin. apply changes_only_read_only, read_only_on_disk.
  by apply (format_getRecords_read_only name).
Qed.

(** X6. [add] and [importRecords] change no file but the data file,
    whatever they return or raise. *)
Theorem writes_touch_data_file_only (w : World) (r : Record)
    (fName p : string) :
  p <> dataFile (self w) ->
  disk (snd (add r w)) !! p = disk w !! p
  /\ disk (snd (importRecords fName w)) !! p = disk w !! p.
Proof.
  intros Hp. destruct w as [db fs]; cbn [self] in Hp. fold (world db fs).
  split.
  - unfold add. rewrite (bind_Ret _ _ _ _ _ (get_self_eq db fs)).
    refine (changes_only_formats (fun q => q = dataFile db) _ _ _ _ p Hp).
    intros format Hin. by apply (changes_only_format_write _ (currentFormat db)).
  - unfold importRecords. rewrite (bind_Ret _ _ _ _ _ (get_self_eq db fs)).
    destruct (nth_error _ 1) as [format |]; [| done].
    destruct (supported format); [| done].
    refine (changes_only_formats (fun q => q = dataFile db) _ _ _ _ p Hp).
    intros source Hsource.
    apply changes_only_bind;
      [by apply (changes_only_format_getRecords _ format) | intros records].
    apply changes_only_bind; [| intros _; apply changes_only_ret].
    apply changes_only_for_each. intros record.
    apply changes_only_formats. intros current Hcurrent.
    apply changes_only_bind; [| intros _; apply changes_only_ret].
    by apply (changes_only_format_write _ (currentFormat db)).
Qed.

Lemma writes_touch_data_file_only_witness :
  let w := world (init "db" "json")
             {[ "db.json" := stored_text "json" [john_doe];
                "old.csv" := csv_text [john_doe];
                "notes.txt" := "keep" ]} in
  (disk (snd (add john_doe w)) !! "notes.txt" = disk w !! "notes.txt"
   /\ disk (snd (importRecords "old.csv" w)) !! "notes.txt"
      = disk w !! "notes.txt")
  /\ fst (add john_doe w) = Ret true
  /\ disk (snd (add john_doe w)) !! "db.json"
     = Some (stored_text "json" [john_doe; john_doe])
  /\ fst (importRecords "old.csv" w) = Ret true
  /\ disk (snd (importRecords "old.csv" w)) !! "db.json"
     = Some (stored_text "json" [john_doe; john_doe]).
Proof.
  cbv zeta. split.
  - apply (writes_touch_data_file_only
             (world (init "db" "json")
                {[ "db.json" := stored_text "json" [john_doe];
                   "old.csv" := csv_text [john_doe];
                   "notes.txt" := "keep" ]})
             john_doe "old.csv" "notes.txt").
    discriminate.
  - repeat split; vm_compute; reflexivity.
Defined.

(** X7. [convert] changes no file but the data file and the file of the
    new format, whatever it returns or raises. *)
Theorem convert_touches_two_files (w : World) (newFormat p : string) :
  p <> dataFile (self w) ->
  p <> fileName (self w) +:+ "." +:+ newFormat ->
  disk (snd (convert newFormat w)) !! p = disk w !! p.
Proof.
  intros Hp1 Hp2. destruct w as [db fs]; cbn [self] in *. fold (world db fs).
  unfold convert. rewrite (bind_Ret _ _ _ _ _ (get_self_eq db fs)).
  destruct (String.eqb newFormat (currentFormat db)); [done |].
  set (P := fun q => q = dataFile db \/ q = fileName db +:+ "." +:+ newFormat).
  assert (~ P p) as Hp by (intros [? | ?]; done).
  match goal with
  | |- disk (snd (?m _)) !! _ = _ =>
      enough (changes_only P m) as H by exact (H _ p Hp)
  end.
  apply changes_only_bind;
    [by apply changes_only_read_only, read_only_on_disk | intros exists_].
  destruct (negb exists_).
  { apply changes_only_bind; [apply changes_only_set_self |].
    intros _. apply changes_only_ret. }
  destruct (supported newFormat); [| apply changes_only_ret].
  apply changes_only_formats. intros current Hcurrent.
  apply changes_only_bind;
    [by apply (changes_only_format_getRecords _ (currentFormat db)) |].
  intros records. apply changes_only_bind;
    [by apply changes_only_read_only, read_only_on_disk | intros stale].
  apply changes_only_bind.
  { destruct stale; [| apply changes_only_ret].
    apply changes_only_on_disk, touches_only_remove. by right. }
  intros _. apply changes_only_bind.
  { apply changes_only_for_each. intros record.
    apply changes_only_bind; [by intros ? ? | intros _; apply changes_only_ret]. }
  intros _. apply changes_only_formats. intros target Htarget.
  apply changes_only_bind;
    [by apply (changes_only_format_getRecords _ newFormat) | intros written].
  destruct (Rec.list_eqb written records).
  - apply changes_only_bind.
    { apply changes_only_on_disk, touches_only_remove. by left. }
    intros _. apply changes_only_bind; [apply changes_only_set_self |].
    intros _. apply changes_only_ret.
  - apply changes_only_bind; [| intros _; apply changes_only_ret].
    apply changes_only_on_disk, touches_only_remove. by right.
Qed.

Lemma convert_touches_two_files_witness :
  let w := world (init "db" "csv")
             {[ "db.csv" := csv_text [];
                "db.json" := "stale";
                "notes.txt" := "keep" ]} in
  disk (snd (convert "json" w)) !! "notes.txt" = disk w !! "notes.txt"
  /\ fst (convert "json" w) = Ret true
  /\ disk (snd (convert "json" w)) !! "db.csv" = None
  /\ disk (snd (convert "json" w)) !! "db.json" = None.
Proof.
  cbv zeta. split.
  - apply (convert_touches_two_files
             (world (init "db" "csv")
                {[ "db.csv" := csv_text [];
                   "db.json" := "stale";
                   "notes.txt" := "keep" ]})
             "json" "notes.txt"); discriminate.
  - repeat split; vm_compute; reflexivity.
Defined.

(** ** More on conversion *)

Lemma bind_inv {S A B} (m : M S A) (k : A -> M S B) (s s' : S) (b : B) :
  bind m k s = (Ret b, s') ->
  exists a s1, m s = (Ret a, s1) /\ k a s1 = (Ret b, s').
Proof.
  unfold bind. destruct (m s) as [[a | e] s1]; [| discriminate].
  intros H. by exists a, s1.
Qed.

(** The copying loop of [convert] ends only when there is nothing to
    copy. *)
Lemma copy_loop_inv (records : list Record) (newFormat : string)
    (w w' : World) :
  for_each records (fun record =>
    let* _ := add_with_format record newFormat in ret tt) w = (Ret tt, w') ->
  records = [] /\ w' = w.
Proof.
  destruct records as [| record records]; [by intros [= <-] | discriminate].
Qed.

Lemma format_getRecords_absent (name : string) (format : Format)
    (path : string) (fs : FS) :
  In (name, format) configFormats ->
  fs !! path = None ->
  getRecords format path fs = (Ret [], fs).
Proof.
  intros Hin Hnone.
  by apply (read_stored name format [] path fs Hin (List.Forall_nil _)).
Qed.

Lemma on_disk_inv {A} (m : M FS A) (db : Database) (fs : FS) (r : res A)
    (w' : World) :
  on_disk m (world db fs) = (r, w') ->
  exists fs', m fs = (r, fs') /\ w' = world db fs'.
Proof.
  unfold on_disk, world; simpl. destruct (m fs) as [r' fs'].
  intros [= <- <-]. by exists fs'.
Qed.


(** X8. [convert] returns [False] in one case only: an unsupported new
    format while a data file exists; it then changes nothing.  The
    comparison of the written records with the read ones never fails. *)
Theorem convert_False_only_unsupported (w w' : World) (newFormat : string) :
  convert newFormat w = (Ret false, w') ->
  supported newFormat = false
  /\ w' = w
  /\ newFormat <> currentFormat (self w)
  /\ is_Some (disk w !! dataFile (self w)).
Proof.
  destruct w as [db fs]. fold (world db fs). cbn [self disk world].
  unfold convert. rewrite (bind_Ret _ _ _ _ _ (get_self_eq db fs)).
  destruct (String.eqb_spec newFormat (currentFormat db)) as [_ | Hne];
    [discriminate |].
  destruct (fs !! dataFile db) as [text |] eqn:Hfile.
  2:{ rewrite (bind_Ret _ _ _ _ _ (on_disk_eq _ db _ _ _ (isfile_None _ _ Hfile))).
      discriminate. }
  rewrite (bind_Ret _ _ _ _ _ (on_disk_eq _ db _ _ _ (isfile_Some _ _ _ Hfile))).
  cbn [negb]. destruct (supported newFormat) eqn:Hsup.
  2:{ intros [= <-]. by repeat split. }
  intros H. exfalso.
  apply bind_inv in H as (current & w1 & Hcurrent & H).
  apply formats_inv in Hcurrent as [-> Hcur].
  apply bind_inv in H as (records & w2 & Hread & H).
  apply on_disk_inv in Hread as (fs2 & Hread & ->).
  pose proof (format_getRecords_read_only _ _ (dataFile db) Hcur fs) as Hro.
  rewrite Hread in Hro. simpl in Hro. subst fs2.
  set (newFile := fileName db +:+ "." +:+ newFormat) in *.
  apply bind_inv in H as (stale & w3 & Hstale & H).
  apply on_disk_inv in Hstale as (fs3 & Hstale & ->).
  unfold Os.isfile in Hstale. injection Hstale as Hstale <-.
  apply bind_inv in H as ([] & w4 & Hremove & H).
  assert (w4 = world db (delete newFile fs)) as ->.
  { destruct stale.
    - apply bool_decide_eq_true_1 in Hstale as [old Hold].
      apply on_disk_inv in Hremove as (fs4 & Hremove & ->).
      rewrite (remove_Some _ _ _ Hold) in Hremove. by injection Hremove as <-.
    - injection Hremove as <-. rewrite delete_id; [done |].
      apply bool_decide_eq_false_1 in Hstale.
      by apply eq_None_not_Some. }
  apply bind_inv in H as ([] & w5 & Hloop & H).
  apply copy_loop_inv in Hloop as [-> ->].
  apply bind_inv in H as (target & w6 & Htarget & H).
  apply formats_inv in Htarget as [-> Htar].
  rewrite (bind_Ret _ _ _ _ _
             (on_disk_eq _ db _ _ _
                (format_getRecords_absent _ _ newFile _ Htar
                   (lookup_delete_eq _ _)))) in H.
  cbn [Rec.list_eqb] in H.
  apply bind_inv in H as ([] & w7 & _ & H).
  apply bind_inv in H as ([] & w8 & _ & H). discriminate.
Qed.

Lemma convert_False_only_unsupported_witness :
  supported "xml" = false
  /\ world (init "db" "csv") {[ "db.csv" := csv_text [john_doe] ]}
     = world (init "db" "csv") {[ "db.csv" := csv_text [john_doe] ]}
  /\ "xml" <> currentFormat
                (self (world (init "db" "csv")
                         {[ "db.csv" := csv_text [john_doe] ]}))
  /\ is_Some (disk (world (init "db" "csv")
                      {[ "db.csv" := csv_text [john_doe] ]})
              !! dataFile (self (world (init "db" "csv")
                                   {[ "db.csv" := csv_text [john_doe] ]}))).
Proof.
  apply (convert_False_only_unsupported
           (world (init "db" "csv") {[ "db.csv" := csv_text [john_doe] ]})
           (world (init "db" "csv") {[ "db.csv" := csv_text [john_doe] ]})
           "xml").
  vm_compute. reflexivity.
Defined.



(** X10. When no data file exists [convert] accepts any name, supported
    or not: it returns [True] and records the name as the current format,
    after which [add] raises [KeyError]. *)
Theorem convert_without_file_accepts_any (w : World) (newFormat : string)
    (r : Record) :
  disk w !! dataFile (self w) = None ->
  supported newFormat = false ->
  exists w',
    convert newFormat w = (Ret true, w')
    /\ currentFormat (self w') = newFormat
    /\ add r w' = (Raise KeyError, w').
Proof.
  intros Hnone Hsup. destruct w as [db fs]; cbn [self disk] in *.
  fold (world db fs).
  destruct (String.eqb_spec newFormat (currentFormat db)) as [E | Hne].
  - exists (world db fs). subst newFormat. repeat split.
    + unfold convert. rewrite (bind_Ret _ _ _ _ _ (get_self_eq db fs)).
      by rewrite String.eqb_refl.
    + unfold add. rewrite (bind_Ret _ _ _ _ _ (get_self_eq db fs)).
      apply bind_Raise. by apply formats_unsupported.
  - eexists. split; [| split].
    + unfold convert. rewrite (bind_Ret _ _ _ _ _ (get_self_eq db fs)).
      destruct (String.eqb_spec newFormat (currentFormat db)) as [E | _];
        [exfalso; by apply Hne |].
      rewrite (bind_Ret _ _ _ _ _ (on_disk_eq _ db _ _ _ (isfile_None _ _ Hnone))).
      reflexivity.
    + reflexivity.
    + unfold add.
      erewrite bind_Ret by reflexivity.
      apply bind_Raise. by apply formats_unsupported.
Qed.

Lemma convert_without_file_accepts_any_witness :
  exists w',
    convert "xml" (world (init "db" "csv") ∅) = (Ret true, w')
    /\ currentFormat (self w') = "xml"
    /\ add john_doe w' = (Raise KeyError, w').
Proof.
  apply (convert_without_file_accepts_any
           (world (init "db" "csv") ∅) "xml" john_doe); reflexivity.
Defined.

Lemma convert_with_file_keeps_invariant_witness :
  dataFile_derived
    (self (snd (convert "json"
                  (world (init "db" "csv") {[ "db.csv" := csv_text [] ]})))).
Proof.
  apply (convert_with_file_keeps_invariant
           (world (init "db" "csv") {[ "db.csv" := csv_text [] ]}) "json").
  - reflexivity.
  - eexists. reflexivity.
Defined.

(** ** More on import *)


(** X12. Importing from a file that does not exist is reported as a
    success, and nothing changes. *)
Theorem importRecords_missing_source (w : World) (fName format : string) :
  nth_error (Py.split Py.DOT (Py.strip fName)) 1 = Some format ->
  supported format = true ->
  disk w !! fName = None ->
  importRecords fName w = (Ret true, w).
Proof.
  intros Hpart Hsup Hnone. destruct w as [db fs]; cbn [disk] in *.
  fold (world db fs).
  destruct (formats_In (S := World) format (world db fs) Hsup)
    as (source & Hin & Hsource).
  unfold importRecords. rewrite (bind_Ret _ _ _ _ _ (get_self_eq db fs)).
  rewrite Hpart, Hsup. rewrite (bind_Ret _ _ _ _ _ (Hsource _)).
  rewrite (bind_Ret _ _ _ _ _
             (on_disk_eq _ db _ _ _
                (format_getRecords_absent _ _ fName _ Hin Hnone))).
  reflexivity.
Qed.

Lemma importRecords_missing_source_witness :
  importRecords "nowhere.csv" (world (init "db" "json") ∅)
  = (Ret true, world (init "db" "json") ∅).
Proof.
  apply (importRecords_missing_source
           (world (init "db" "json") ∅) "nowhere.csv" "csv"); reflexivity.
Defined.



Lemma importRecords_unsupported_witness :
  importRecords "notes.txt" (world (init "db" "csv") ∅)
  = (Ret false, world (init "db" "csv") ∅).
Proof.
  apply (importRecords_unsupported "notes.txt" "txt"); reflexivity.
Defined.

Lemma split_no_sep (sep : ascii) (s : string) :
  Py.contains sep s = false -> Py.split sep s = [s].
Proof.
  induction s as [| c s IH]; [done |].
  simpl. intros [Hc Hs]%orb_false_iff. rewrite Hc, IH; done.
Qed.

Lemma lstrip_contains (c : ascii) (s : string) :
  Py.contains c s = false -> Py.contains c (Py.lstrip s) = false.
Proof.
  induction s as [| x s IH]; [done |].
  intros H. simpl. destruct (Py.isspace x); [| done].
  simpl in H. apply orb_false_iff in H as [_ H]. by apply IH.
Qed.

Lemma rstrip_contains (c : ascii) (s : string) :
  Py.contains c s = false -> Py.contains c (Py.rstrip s) = false.
Proof.
  induction s as [| x s IH]; [done |].
  simpl. intros [Hx Hs]%orb_false_iff. specialize (IH Hs).
  destruct (Py.rstrip s) as [| y t].
  - destruct (Py.isspace x); [done |]. simpl. by rewrite Hx.
  - simpl in *. by rewrite Hx, IH.
Qed.

(** X15. [importRecords] on a name without a dot raises [IndexError],
    whatever the state, and changes nothing. *)
Theorem importRecords_no_dot (w : World) (fName : string) :
  Py.contains Py.DOT fName = false ->
  importRecords fName w = (Raise IndexError, w).
Proof.
  intros Hdot. destruct w as [db fs]. fold (world db fs).
  unfold importRecords. rewrite (bind_Ret _ _ _ _ _ (get_self_eq db fs)).
  rewrite split_no_sep; [reflexivity |].
  by apply rstrip_contains, lstrip_contains.
Qed.

Lemma importRecords_no_dot_witness :
  importRecords "contacts" (world (init "db" "csv") ∅)
  = (Raise IndexError, world (init "db" "csv") ∅).
Proof.
  apply (importRecords_no_dot (world (init "db" "csv") ∅) "contacts").
  reflexivity.
Defined.

(** ** More on filtering *)

Section FilterMore.
Import Py Fnmatch.

(** Without a comma in the pattern the loop keeps the matching records,
    in order. *)
Lemma filter_entries_no_comma (entries : list Record) (field pat : string)
    (acc : list Record) :
  contains COMMA pat = false ->
  Forall (fun e => is_Some (Rec.get e field)) entries ->
  filter_entries entries field pat acc
  = Ret (acc ++ List.filter (matches field pat) entries).
Proof.
  intros Hcomma Hall. revert acc.
  induction Hall as [| e es [v Hv] _ IH]; intros acc.
  - by rewrite List.app_nil_r.
  - cbn [filter_entries List.filter]. unfold matches at 1. rewrite Hv, Hcomma.
    rewrite IH. destruct (fnmatch v pat); [| done].
    by rewrite <- List.app_assoc.
Qed.

(** A pattern without special characters matches its own text only. *)
Lemma match_literal (pat name : string) :
  match_tokens (map Lit (list_ascii_of_string pat)) name = String.eqb name pat.
Proof.
  revert name. induction pat as [| c pat IH]; intros [| x name]; try done.
  cbn [list_ascii_of_string map match_tokens]. rewrite IH.
  simpl. by destruct (Ascii.eqb x c).
Qed.

Lemma plain_tokens_literal (pat : string) :
  contains "*" pat = false -> contains "?" pat = false ->
  map plain_token (list_ascii_of_string pat)
  = map Lit (list_ascii_of_string pat).
Proof.
  induction pat as [| c pat IH]; [done |].
  simpl. intros [Hs Hpat]%orb_false_iff [Hq Hpat']%orb_false_iff.
  unfold plain_token at 1. by rewrite Hs, Hq, IH.
Qed.

Lemma fnmatch_literal (pat name : string) :
  literal pat -> fnmatch name pat = String.eqb name pat.
Proof.
  intros (Hs & Hq & Hb). unfold fnmatch, translate.
  rewrite translate_plain by done.
  rewrite plain_tokens_literal by done. apply match_literal.
Qed.

End FilterMore.

(** X16. When every record that [getRecords] returns has the field and
    the pattern has no comma, [filter] returns exactly the records whose
    field matches the pattern as a glob, each once and in the order of
    [getRecords]. *)
Theorem filter_without_comma (w : World) (field pat : string)
    (entries : list Record) :
  getRecords_db w = (Ret entries, w) ->
  Forall (fun e => is_Some (Rec.get e field)) entries ->
  Py.contains Py.COMMA pat = false ->
  filter field pat w = (Ret (List.filter (matches field pat) entries), w).
Proof.
  intros Hget Hall Hcomma.
  apply (filter_run _ _ _ entries); [done |].
  by rewrite filter_entries_no_comma.
Qed.

Lemma filter_without_comma_witness :
  filter "name" "George*"
    (world (init "testFilter" "csv")
       {[ "testFilter.csv" :=
            csv_text [john_doe;
                      Rec.make "George Carlin" "123 Street street" "555-5555"] ]})
  = (Ret (List.filter (matches "name" "George*")
            [john_doe; Rec.make "George Carlin" "123 Street street" "555-5555"]),
     world (init "testFilter" "csv")
       {[ "testFilter.csv" :=
            csv_text [john_doe;
                      Rec.make "George Carlin" "123 Street street" "555-5555"] ]}).
Proof.
  refine (filter_without_comma
            (world (init "testFilter" "csv")
               {[ "testFilter.csv" :=
                    csv_text [john_doe;
                              Rec.make "George Carlin" "123 Street street"
                                "555-5555"] ]})
            "name" "George*"
            [john_doe; Rec.make "George Carlin" "123 Street street" "555-5555"]
            _ _ _).
  - vm_compute. reflexivity.
  - repeat constructor; by eexists.
  - reflexivity.
Defined.

(** X17. When every record that [getRecords] returns has the field and
    the pattern has none of [*], [?], [[] and no comma, [filter] returns
    exactly the records whose field is the pattern, in the order of
    [getRecords]. *)
Theorem filter_literal_pattern (w : World) (field pat : string)
    (entries : list Record) :
  getRecords_db w = (Ret entries, w) ->
  Forall (fun e => is_Some (Rec.get e field)) entries ->
  literal pat ->
  Py.contains Py.COMMA pat = false ->
  filter field pat w
  = (Ret (List.filter (fun e => bool_decide (Rec.get e field = Some pat))
            entries), w).
Proof.
  intros Hget Hall Hlit Hcomma.
  apply (filter_run _ _ _ entries); [done |].
  rewrite filter_entries_no_comma by done.
  cbn [app]. f_equal. apply filter_ext. intros e. unfold matches.
  destruct (Rec.get e field) as [v |].
  - rewrite fnmatch_literal by done.
    destruct (String.eqb_spec v pat) as [-> | Hne].
    + by rewrite bool_decide_eq_true_2.
    + rewrite bool_decide_eq_false_2; [done | congruence].
  - by rewrite bool_decide_eq_false_2.
Qed.

Lemma filter_literal_pattern_witness :
  filter "name" "John Doe"
    (world (init "db" "json") {[ "db.json" := stored_text "json" [john_doe] ]})
  = (Ret (List.filter
            (fun e => bool_decide (Rec.get e "name" = Some "John Doe"))
            [john_doe]),
     world (init "db" "json") {[ "db.json" := stored_text "json" [john_doe] ]}).
Proof.
  refine (filter_literal_pattern
            (world (init "db" "json")
                   {[ "db.json" := stored_text "json" [john_doe] ]})
            "name" "John Doe" [john_doe] _ _ _ _).
  - vm_compute. reflexivity.
  - repeat constructor; by eexists.
  - by repeat split.
  - reflexivity.
Defined.

(** X18. [filter] raises [KeyError] as soon as one record of the database
    lacks the field, whatever the pattern and the other records. *)
Theorem filter_missing_field (w : World) (field pat : string)
    (entries : list Record) :
  getRecords_db w = (Ret entries, w) ->
  Exists (fun e => Rec.get e field = None) entries ->
  filter field pat w = (Raise KeyError, w).
Proof.
  intros Hget Hex. unfold filter. rewrite (bind_Ret _ _ _ _ _ Hget).
  enough (forall acc, filter_entries entries field pat acc = Raise KeyError)
    as H by (by rewrite H).
  clear Hget. induction Hex as [e es He | e es _ IH]; intros acc.
  - cbn [filter_entries]. by rewrite He.
  - cbn [filter_entries]. destruct (Rec.get e field) as [v |]; [apply IH | done].
Qed.

Lemma filter_missing_field_witness :
  filter "phone number" "*"
    (world (init "db" "json")
       {[ "db.json" := Json.dumps (document [john_doe; [("name", "Ann")]]) ]})
  = (Raise KeyError,
     world (init "db" "json")
       {[ "db.json" := Json.dumps (document [john_doe; [("name", "Ann")]]) ]}).
Proof.
  refine (filter_missing_field
            (world (init "db" "json")
               {[ "db.json" :=
                    Json.dumps (document [john_doe; [("name", "Ann")]]) ]})
            "phone number" "*" [john_doe; [("name", "Ann")]] _ _).
  - vm_compute. reflexivity.
  - right. by left.
Defined.

(** ** The csv format beyond the data model *)

Section CsvMore.
Import Py.

Lemma read_rows_text (rows : list (list string)) :
  Forall (Forall csv_safe) rows ->
  Csv.read_rows (universal_newlines (rows_text rows)) = map Ret rows.
Proof.
  intros Hall. unfold Csv.read_rows.
  induction Hall as [| row rows Hrow Hall IH]; [reflexivity |].
  cbn [rows_text fold_right map]. rewrite read_written_row by done.
  f_equal. exact IH.
Qed.

Lemma rows_text_app (rows1 rows2 : list (list string)) :
  rows_text (rows1 ++ rows2) = rows_text rows1 +:+ rows_text rows2.
Proof.
  induction rows1 as [| row rows1 IH]; [by rewrite append_nil_l |].
  cbn [app rows_text fold_right]. fold (rows_text (rows1 ++ rows2)).
  fold (rows_text rows1). by rewrite IH, append_assoc.
Qed.

Lemma csv_text_rows (rs : list Record) :
  csv_text rs = rows_text (Rec.categories :: map Rec.values rs).
Proof.
  unfold csv_text. cbn [rows_text fold_right]. f_equal.
  induction rs as [| r rs IH]; [done |].
  cbn [map fold_right]. by rewrite IH.
Qed.

Lemma values_safe (rs : list Record) :
  Forall (readable "csv") rs ->
  Forall (Forall csv_safe) (map Rec.values rs).
Proof.
  intros Hall. apply Forall_map.
  eapply Forall_impl; [exact Hall |]. intros r [_ Hs]. by apply Hs.
Qed.

Lemma values_well_formed (rs : list Record) :
  Forall (readable "csv") rs -> Forall Rec.well_formed rs.
Proof. apply List.Forall_impl. by intros r [Hwf _]. Qed.

(** [getRecords] on a file made of written rows: the first is skipped and
    the others are turned into records. *)
Lemma csv_getRecords_rows (f : string) (header : list string)
    (rows : list (list string)) (fs : FS) :
  Forall (Forall csv_safe) (header :: rows) ->
  fs !! f = Some (rows_text (header :: rows)) ->
  CSVFormat.getRecords f fs = (CSVFormat.collect [] (map Ret rows), fs).
Proof.
  intros Hall Hfile. unfold CSVFormat.getRecords.
  rewrite (bind_Ret _ _ _ _ _ (isfile_Some _ _ _ Hfile)).
  unfold bind at 1. unfold Os.read at 1. rewrite Hfile. cbn [default].
  unfold id. rewrite read_rows_text by done. cbn [map].
  by destruct (CSVFormat.collect [] (map Ret rows)).
Qed.

(** [write] appends one row to whatever an existing file holds. *)
Lemma csv_write_existing (r : Record) (f text : string) (fs : FS) :
  fs !! f = Some text ->
  CSVFormat.write r f fs
  = (Ret true, <[f := text +:+ Csv.writerow (Rec.values r)]> fs).
Proof.
  intros Hfile. unfold CSVFormat.write.
  rewrite (bind_Ret _ _ _ _ _ (isfile_Some _ _ _ Hfile)).
  unfold bind, Os.append, modify, ret. rewrite Hfile.
  cbn [negb default]. by rewrite append_nil_l.
Qed.

Lemma collect_app (acc : list Record)
    (rows1 rows2 : list (res (list string))) :
  CSVFormat.collect acc (rows1 ++ rows2)
  = match CSVFormat.collect acc rows1 with
    | Ret records => CSVFormat.collect records rows2
    | Raise e => Raise e
    end.
Proof.
  revert acc. induction rows1 as [| [row | e] rows1 IH]; intros acc; try done.
  cbn [app CSVFormat.collect].
  destruct (CSVFormat.fill [] 0 row); [apply IH | done].
Qed.


Lemma fill_too_long (row : list string) :
  3 < length row -> CSVFormat.fill [] 0 row = Raise IndexError.
Proof.
  destruct row as [| a [| b [| c [| d row]]]]; cbn [length]; intros H;
    try reflexivity; lia.
Qed.


(** The file after one more [write] on a stored data file, and what
    [getRecords] makes of it. *)
Lemma csv_write_then_rows (r : Record) (f : string) (rs : list Record)
    (fs : FS) :
  Forall (readable "csv") rs ->
  Forall csv_safe (Rec.values r) ->
  stored "csv" f rs fs ->
  exists fs',
    CSVFormat.write r f fs = (Ret true, fs')
    /\ CSVFormat.getRecords f fs'
       = (match CSVFormat.fill [] 0 (Rec.values r) with
          | Ret record => Ret (rs ++ [record])
          | Raise e => Raise e
          end, fs').
Proof.
  intros Hall Hr Hst. eexists. split.
  - exact (write_stored "csv" csv_format rs r f fs
             (or_introl eq_refl) Hall Hst).
  - rewrite (csv_getRecords_rows f Rec.categories
               (map Rec.values rs ++ [Rec.values r])).
    + rewrite map_app, collect_app, collect_well_formed
        by (by apply values_well_formed).
      cbn [app map CSVFormat.collect].
      by destruct (CSVFormat.fill [] 0 (Rec.values r)).
    + constructor; [apply categories_safe |].
      apply Forall_app. split; [by apply values_safe | by constructor].
    + rewrite lookup_insert_eq. f_equal. unfold stored_text.
      change (String.eqb "csv" "csv") with true. cbn iota.
      rewrite csv_text_rows. by rewrite map_app.
Qed.

(** The rows [add] leaves in a csv data file that exists. *)
Lemma add_all_csv (db : Database) (records : list Record) (text : string)
    (fs : FS) :
  currentFormat db = "csv" ->
  fs !! dataFile db = Some text ->
  add_all records (world db fs)
  = (Ret (map (fun _ => true) records),
     world db (<[dataFile db := text +:+ rows_text (map Rec.values records)]> fs)).
Proof.
  intros Hcsv. revert text fs.
  induction records as [| r records IH]; intros text fs Hfile.
  - cbn [add_all map rows_text fold_right]. rewrite append_nil_r.
    by rewrite insert_id.
  - cbn [add_all].
    assert (add r (world db fs)
            = (Ret true,
               world db (<[dataFile db := text +:+ Csv.writerow (Rec.values r)]> fs)))
      as Hadd.
    { unfold add. rewrite (bind_Ret _ _ _ _ _ (get_self_eq db fs)).
      rewrite Hcsv. rewrite (bind_Ret _ _ _ _ _ (formats_csv _)).
      apply on_disk_eq. by apply csv_write_existing. }
    rewrite (bind_Ret _ _ _ _ _ Hadd).
    rewrite (bind_Ret _ _ _ _ _ (IH _ _ (lookup_insert_eq _ _ _))).
    unfold ret. cbn [map rows_text fold_right].
    by rewrite insert_insert_eq, append_assoc.
Qed.

End CsvMore.



(** X21. A record of more than three fields is written by the csv format
    with success, and from then on [getRecords] raises [IndexError].  The
    file holds records of the data model as the format wrote them (no
    file when there are none), and all values have no carriage return and
    are within the field size limit. *)
Theorem csv_too_many_fields (r : Record) (f : string) (rs : list Record)
    (fs : FS) :
  Forall (readable "csv") rs ->
  stored "csv" f rs fs ->
  3 < length r ->
  Forall csv_safe (Rec.values r) ->
  exists fs',
    CSVFormat.write r f fs = (Ret true, fs')
    /\ CSVFormat.getRecords f fs' = (Raise IndexError, fs').
Proof.
  intros Hall Hst Hlen Hr.
  destruct (csv_write_then_rows r f rs fs Hall Hr Hst) as (fs' & Hw & Hg).
  exists fs'. split; [done |].
  rewrite Hg, fill_too_long; [done |].
  unfold Rec.values. by rewrite length_map.
Qed.

Lemma csv_too_many_fields_witness :
  exists fs',
    CSVFormat.write
      [("name", "a"); ("address", "b"); ("phone number", "c"); ("email", "d")]
      "db.csv" {[ "db.csv" := csv_text [john_doe] ]}
    = (Ret true, fs')
    /\ CSVFormat.getRecords "db.csv" fs' = (Raise IndexError, fs').
Proof.
  refine (csv_too_many_fields
            [("name", "a"); ("address", "b"); ("phone number", "c");
             ("email", "d")]
            "db.csv" [john_doe] {[ "db.csv" := csv_text [john_doe] ]}
            _ _ _ _).
  - by repeat constructor.
  - reflexivity.
  - simpl. lia.
  - by repeat constructor.
Defined.

(** X22. The header of a csv file is not checked: a first row of any
    number of fields with any text is skipped, and the rows after it are
    the records.  The file is made of rows as [csv.writer] writes them,
    the rows after the first being records of the data model, and no
    field, of the first row or of the others, has a carriage return or
    is beyond the field size limit. *)
Theorem csv_header_not_checked (header : list string) (rs : list Record)
    (f : string) (fs : FS) :
  Forall csv_safe header ->
  Forall (readable "csv") rs ->
  fs !! f = Some (rows_text (header :: map Rec.values rs)) ->
  CSVFormat.getRecords f fs = (Ret rs, fs).
Proof.
  intros Hheader Hall Hfile.
  rewrite (csv_getRecords_rows f header (map Rec.values rs)); [| | done].
  - by rewrite collect_well_formed by (by apply values_well_formed).
  - constructor; [done | by apply values_safe].
Qed.

Lemma csv_header_not_checked_witness :
  CSVFormat.getRecords "db.csv"
    {[ "db.csv" := rows_text (["phone"; "who"] :: map Rec.values [john_doe]) ]}
  = (Ret [john_doe],
     {[ "db.csv" := rows_text (["phone"; "who"] :: map Rec.values [john_doe]) ]}).
Proof.
  refine (csv_header_not_checked ["phone"; "who"] [john_doe] "db.csv"
            {[ "db.csv" :=
                 rows_text (["phone"; "who"] :: map Rec.values [john_doe]) ]}
            _ _ _).
  - by repeat constructor.
  - by repeat constructor.
  - reflexivity.
Defined.

(** X23. A csv data file that exists and is empty: [getRecords] raises
    [StopIteration]; [add] writes no header, so the first record added
    takes the place of the header and [getRecords] returns the ones added
    after it only.  The first record is any record and the others are of
    the data model; all values have no carriage return and are within the
    field size limit. *)
Theorem csv_empty_file_first_record_lost (db : Database) (r : Record)
    (others : list Record) (fs : FS) :
  currentFormat db = "csv" ->
  fs !! dataFile db = Some EmptyString ->
  Forall csv_safe (Rec.values r) ->
  Forall (readable "csv") others ->
  getRecords_db (world db fs) = (Raise StopIteration, world db fs)
  /\ exists fs',
       add_all (r :: others) (world db fs)
       = (Ret (map (fun _ => true) (r :: others)), world db fs')
       /\ getRecords_db (world db fs') = (Ret others, world db fs').
Proof.
  intros Hcsv Hfile Hr Hothers. split.
  - unfold getRecords_db. rewrite (bind_Ret _ _ _ _ _ (get_self_eq db fs)).
    rewrite Hcsv. rewrite (bind_Ret _ _ _ _ _ (formats_csv _)).
    apply on_disk_eq. cbn [getRecords csv_format].
    unfold CSVFormat.getRecords.
    rewrite (bind_Ret _ _ _ _ _ (isfile_Some _ _ _ Hfile)).
    unfold bind at 1. unfold Os.read at 1. by rewrite Hfile.
  - eexists. split; [by apply add_all_csv |].
    unfold getRecords_db. rewrite (bind_Ret _ _ _ _ _ (get_self_eq db _)).
    rewrite Hcsv. rewrite (bind_Ret _ _ _ _ _ (formats_csv _)).
    apply on_disk_eq. cbn [getRecords csv_format].
    rewrite (csv_getRecords_rows _ (Rec.values r) (map Rec.values others)).
    + by rewrite collect_well_formed by (by apply values_well_formed).
    + constructor; [done | by apply values_safe].
    + by rewrite lookup_insert_eq, append_nil_l.
Qed.

Lemma csv_empty_file_first_record_lost_witness :
  getRecords_db (world (init "db" "csv") {[ "db.csv" := EmptyString ]})
  = (Raise StopIteration, world (init "db" "csv") {[ "db.csv" := EmptyString ]})
  /\ exists fs',
       add_all [john_doe; john_doe]
         (world (init "db" "csv") {[ "db.csv" := EmptyString ]})
       = (Ret (map (fun _ => true) [john_doe; john_doe]),
          world (init "db" "csv") fs')
       /\ getRecords_db (world (init "db" "csv") fs')
          = (Ret [john_doe], world (init "db" "csv") fs').
Proof.
  refine (csv_empty_file_first_record_lost (init "db" "csv") john_doe
            [john_doe] {[ "db.csv" := EmptyString ]} _ _ _ _).
  - reflexivity.
  - reflexivity.
  - by repeat constructor.
  - by repeat constructor.
Defined.

(** ** The json format beyond the data model *)

Section JsonMore.
Import Py Json.







End JsonMore.





(** X26. A json data file that exists and holds no text is never
    repaired: [add] and [getRecords] raise [JSONDecodeError] and leave the
    state as it was, so only [clean] brings the database back. *)
Theorem json_empty_file_raises (db : Database) (r : Record) (fs : FS) :
  currentFormat db = "json" ->
  fs !! dataFile db = Some EmptyString ->
  add r (world db fs) = (Raise JSONDecodeError, world db fs)
  /\ getRecords_db (world db fs) = (Raise JSONDecodeError, world db fs).
Proof.
  intros Hjson Hfile. split.
  - unfold add. rewrite (bind_Ret _ _ _ _ _ (get_self_eq db fs)).
    rewrite Hjson. rewrite (bind_Ret _ _ _ _ _ (formats_json _)).
    apply on_disk_eq. cbn [write json_format]. unfold JSONFormat.write.
    rewrite (bind_Ret _ _ _ _ _ (isfile_Some _ _ _ Hfile)). cbn [negb].
    rewrite (bind_Ret _ _ _ _ tt (eq_refl : ret tt fs = (Ret tt, fs))).
    unfold bind at 1. unfold Os.read at 1. by rewrite Hfile.
  - unfold getRecords_db. rewrite (bind_Ret _ _ _ _ _ (get_self_eq db fs)).
    rewrite Hjson. rewrite (bind_Ret _ _ _ _ _ (formats_json _)).
    apply on_disk_eq. cbn [getRecords json_format].
    unfold JSONFormat.getRecords.
    rewrite (bind_Ret _ _ _ _ _ (isfile_Some _ _ _ Hfile)).
    unfold bind at 1. unfold Os.read at 1. by rewrite Hfile.
Qed.

Lemma json_empty_file_raises_witness :
  add john_doe (world (init "db" "json") {[ "db.json" := EmptyString ]})
  = (Raise JSONDecodeError,
     world (init "db" "json") {[ "db.json" := EmptyString ]})
  /\ getRecords_db (world (init "db" "json") {[ "db.json" := EmptyString ]})
     = (Raise JSONDecodeError,
        world (init "db" "json") {[ "db.json" := EmptyString ]}).
Proof.
  refine (json_empty_file_raises (init "db" "json") john_doe
            {[ "db.json" := EmptyString ]} _ _); reflexivity.
Defined.

(** ** The text of a record *)

Section RecordText.
Import Py.

Lemma rstrip_app (s t : string) :
  rstrip t <> EmptyString -> rstrip (s +:+ t) = s +:+ rstrip t.
Proof.
  intros Ht. induction s as [| c s IH]; [done |].
  rewrite !append_cons. cbn [rstrip]. rewrite IH.
  destruct (s +:+ rstrip t) as [| x u] eqn:E; [| done].
  destruct s; [| by rewrite append_cons in E]. by rewrite append_nil_l in E.
Qed.

Lemma rstrip_newline (s : string) : rstrip (s +:+ chr LF) = rstrip s.
Proof.
  induction s as [| c s IH]; [done |].
  rewrite append_cons. cbn [rstrip]. by rewrite IH.
Qed.

End RecordText.

(** X27. The text of a record of the data model whose phone number is not
    empty and does not end with a space: three lines, the values starting
    in the same column, and no line end after the last. *)
Theorem Record_str_layout (name address phone : string) :
  phone <> EmptyString ->
  Py.rstrip phone = phone ->
  Record_str (Rec.make name address phone)
  = "name:           " +:+ name +:+ Py.chr Py.LF
    +:+ "address:        " +:+ address +:+ Py.chr Py.LF
    +:+ "phone number:   " +:+ phone.
Proof.
  intros Hne Hphone.
  set (head := "name:           " +:+ name +:+ Py.chr Py.LF
               +:+ "address:        " +:+ address +:+ Py.chr Py.LF
               +:+ "phone number:   ").
  assert (str_lines (Rec.make name address phone)
          = head +:+ (phone +:+ Py.chr Py.LF)) as Hlines.
  { unfold str_lines, Rec.make, head. cbn [fold_left fst snd].
    rewrite !append_assoc. reflexivity. }
  assert (Py.lstrip (head +:+ (phone +:+ Py.chr Py.LF))
          = head +:+ (phone +:+ Py.chr Py.LF)) as Hleft by reflexivity.
  unfold Record_str, Py.strip. rewrite Hlines, Hleft.
  rewrite rstrip_app; rewrite rstrip_newline, Hphone; [| done].
  unfold head. by rewrite !append_assoc.
Qed.

Lemma Record_str_layout_witness :
  Record_str (Rec.make "John Doe" "123 Street street" "555-5555")
  = "name:           " +:+ "John Doe" +:+ Py.chr Py.LF
    +:+ "address:        " +:+ "123 Street street" +:+ Py.chr Py.LF
    +:+ "phone number:   " +:+ "555-5555".
Proof.
  apply (Record_str_layout "John Doe" "123 Street street" "555-5555");
    [discriminate | reflexivity].
Defined.

(** ** What [filter] never returns *)

Lemma filter_sub_items_sound (entry : Record) (value : string)
    (subItems : list string) (acc : list Record) (r : Record) :
  In r (filter_sub_items entry value subItems acc) ->
  In r acc \/ (r = entry /\ In value subItems).
Proof.
  revert acc. induction subItems as [| x xs IH]; intros acc H; [by left |].
  cbn [filter_sub_items] in H. apply IH in H as [H | [-> H]].
  - destruct (String.eqb_spec value x) as [-> | _]; [| by left].
    apply in_app_or in H as [H | [<- | []]]; [by left |].
    right. split; [done | by left].
  - right. split; [done | by right].
Qed.

Lemma filter_entries_sound (entries : list Record) (field pat : string)
    (acc out : list Record) (r : Record) :
  filter_entries entries field pat acc = Ret out ->
  In r out ->
  In r acc
  \/ (In r entries
      /\ exists v, Rec.get r field = Some v
                   /\ (Fnmatch.fnmatch v pat = true
                       \/ (Py.contains Py.COMMA pat = true
                           /\ In v (Py.chars pat)))).
Proof.
  revert acc. induction entries as [| e es IH]; intros acc Hout Hin.
  - cbn [filter_entries] in Hout. injection Hout as <-. by left.
  - cbn [filter_entries] in Hout.
    destruct (Rec.get e field) as [v |] eqn:Hv; [| discriminate].
    destruct (IH _ Hout Hin) as [H | [H Hr]]; [| right; split; [by right | done]].
    destruct (Fnmatch.fnmatch v pat) eqn:Hm.
    + apply in_app_or in H as [H | [<- | []]]; [by left |].
      right. split; [by left |]. exists v. split; [done | by left].
    + destruct (Py.contains Py.COMMA pat) eqn:Hc; [| by left].
      apply filter_sub_items_sound in H as [H | [-> H]]; [by left |].
      right. split; [by left |]. exists v. split; [done | by right].
Qed.

(** X19. [filter] returns records of the database only, and only those
    whose field matches the pattern as a glob or, when the pattern has a
    comma, is one single character of the pattern. *)
Theorem filter_returns_only (w : World) (field pat : string)
    (entries out : list Record) (r : Record) :
  getRecords_db w = (Ret entries, w) ->
  filter field pat w = (Ret out, w) ->
  In r out ->
  In r entries
  /\ exists v, Rec.get r field = Some v
               /\ (Fnmatch.fnmatch v pat = true
                   \/ (Py.contains Py.COMMA pat = true /\ In v (Py.chars pat))).
Proof.
  intros Hget Hfilter Hin. unfold filter in Hfilter.
  rewrite (bind_Ret _ _ _ _ _ Hget) in Hfilter.
  destruct (filter_entries entries field pat []) as [out' | e] eqn:Hout;
    [| discriminate].
  injection Hfilter as <-.
  by destruct (filter_entries_sound _ _ _ _ _ r Hout Hin) as [[] | H].
Qed.

Lemma filter_returns_only_witness :
  In john_doe [john_doe]
  /\ exists v, Rec.get john_doe "name" = Some v
               /\ (Fnmatch.fnmatch v "J*" = true
                   \/ (Py.contains Py.COMMA "J*" = true /\ In v (Py.chars "J*"))).
Proof.
  refine (filter_returns_only
            (world (init "db" "csv") {[ "db.csv" := csv_text [john_doe] ]})
            "name" "J*" [john_doe] [john_doe] john_doe _ _ _).
  - vm_compute. reflexivity.
  - vm_compute. reflexivity.
  - by left.
Defined.

(** ** Beyond the field size limit of the csv reader *)

Section CsvLimit.
Import Py Csv.

Lemma needs_quotes_no_CR (v : string) :
  needs_quotes v = false -> contains CR v = false.
Proof.
  induction v as [| x v IH]; [done |].
  simpl. intros [Hx Hv]%orb_false_iff.
  destruct (special_false _ Hx) as (_ & _ & Hr & _). by rewrite Hr, IH.
Qed.

(** An unquoted field goes on until the limit is reached, and the next
    character raises. *)
Lemma reader_in_field_over (v acc : string) (fs : list string)
    (rest : string) :
  needs_quotes v = false ->
  within_limit acc = true ->
  within_limit (acc +:+ v) = false ->
  reader (Parser IN_FIELD acc fs) true (v +:+ rest) = [Raise CsvError].
Proof.
  revert acc. induction v as [| x v IH]; intros acc Hv Hacc Hover.
  - rewrite append_nil_r in Hover. congruence.
  - simpl in Hv. apply orb_false_iff in Hv as [Hx Hv].
    destruct (special_false _ Hx) as (Hc & Hq & Hr & Hl).
    rewrite append_cons. cbn [reader].
    unfold parse_process_char, is_newline; cbn [st].
    rewrite Hl, Hr, Hc. cbn [orb].
    unfold parse_add_char; cbn [field fields].
    destruct (N.leb_spec field_size_limit (N.of_nat (String.length acc)))
      as [Hfull | Hroom]; [done |].
    apply IH; [done | |].
    + apply within_limit_le. rewrite length_append. cbn [String.length chr]. lia.
    + by rewrite append_assoc, chr_app.
Qed.

Lemma reader_over_limit (v rest : string) (mid : bool) :
  needs_quotes v = false ->
  within_limit v = false ->
  reader parse_reset mid (v +:+ rest) = [Raise CsvError].
Proof.
  intros Hv Hover. destruct v as [| x v]; [done |].
  pose proof Hv as Hv'. simpl in Hv'. apply orb_false_iff in Hv' as [Hx Hv'].
  destruct (special_false _ Hx) as (Hc & Hq & Hr & Hl).
  rewrite append_cons.
  rewrite (reader_step _ (Parser IN_FIELD (chr x) []) _ _ _ Hl).
  - apply reader_in_field_over; [done | done |].
    by rewrite chr_app.
  - unfold parse_reset, parse_process_char, process_start_field, is_newline;
      cbn [st set_state]. by rewrite Hl, Hr, Hq, Hc.
Qed.

(** The rows of a text that starts with written rows. *)
Lemma read_rows_then (rows : list (list string)) (rest : string) :
  Forall (Forall csv_safe) rows ->
  reader parse_reset false (universal_newlines (rows_text rows +:+ rest))
  = map Ret rows ++ reader parse_reset false (universal_newlines rest).
Proof.
  intros Hall. induction Hall as [| row rows Hrow Hall IH]; [done |].
  cbn [rows_text fold_right map app]. fold (rows_text rows).
  rewrite append_assoc, read_written_row by done. by rewrite IH.
Qed.

Lemma line_long_first (v : string) (vs : list string) :
  needs_quotes v = false -> v <> EmptyString ->
  exists tail, writerow (v :: vs) = v +:+ tail.
Proof.
  intros Hv Hne. destruct v as [| x v]; [done |].
  assert (write_field (String x v) = String x v) as Hfield
    by (unfold write_field; by rewrite Hv).
  unfold writerow. destruct vs as [| g vs].
  - cbn [map join]. rewrite Hfield. by eexists.
  - change (map write_field (String x v :: g :: vs))
      with (write_field (String x v) :: map write_field (g :: vs)).
    rewrite Hfield.
    change (join (chr COMMA) (String x v :: map write_field (g :: vs)))
      with (String x v +:+ chr COMMA
            +:+ join (chr COMMA) (map write_field (g :: vs))).
    rewrite append_assoc. by eexists.
Qed.

End CsvLimit.

(** X28. The csv format writes a field of any length and reads fields up
    to the field size limit only: a record whose first value has no
    comma, quote or line end and is longer than the limit is written with
    success, and from then on [getRecords] raises [csv.Error]. *)
Theorem csv_field_over_limit (k v : string) (others : Record) (f : string)
    (rs : list Record) (fs : FS) :
  Forall (readable "csv") rs ->
  stored "csv" f rs fs ->
  Csv.needs_quotes v = false ->
  Csv.within_limit v = false ->
  exists fs',
    CSVFormat.write ((k, v) :: others) f fs = (Ret true, fs')
    /\ CSVFormat.getRecords f fs' = (Raise CsvError, fs').
Proof.
  intros Hall Hst Hv Hover. eexists. split.
  - exact (write_stored "csv" csv_format rs ((k, v) :: others) f fs
             (or_introl eq_refl) Hall Hst).
  - unfold CSVFormat.getRecords.
    rewrite (bind_Ret _ _ _ _ _ (isfile_Some _ _ _ (lookup_insert_eq _ _ _))).
    unfold bind at 1. unfold Os.read at 1. rewrite lookup_insert_eq.
    cbn [default]. unfold id, stored_text.
    change (String.eqb "csv" "csv") with true. cbn iota.
    rewrite csv_text_snoc, csv_text_rows. unfold Csv.read_rows.
    rewrite read_rows_then
      by (constructor; [apply categories_safe | by apply values_safe]).
    cbn [Rec.values map snd].
    destruct (line_long_first v (map snd others) Hv) as [tail ->];
      [by intros -> |].
    rewrite universal_newlines_app by (by apply needs_quotes_no_CR).
    rewrite reader_over_limit by done.
    cbn [map app]. rewrite collect_app.
    rewrite collect_well_formed by (by apply values_well_formed).
    reflexivity.
Qed.

Lemma needs_quotes_spaces (n : nat) : Csv.needs_quotes (Json.spaces n) = false.
Proof. induction n as [| n IH]; [done | exact IH]. Qed.

Lemma spaces_length (n : nat) : String.length (Json.spaces n) = n.
Proof. induction n as [| n IH]; [done | simpl; by rewrite IH]. Qed.

Lemma csv_field_over_limit_witness :
  exists fs',
    CSVFormat.write
      [("name", Json.spaces (N.to_nat 131073)); ("address", "x");
       ("phone number", "y")] "db.csv" ∅
    = (Ret true, fs')
    /\ CSVFormat.getRecords "db.csv" fs' = (Raise CsvError, fs').
Proof.
  refine (csv_field_over_limit "name" (Json.spaces (N.to_nat 131073))
            [("address", "x"); ("phone number", "y")] "db.csv" [] ∅ _ _ _ _).
  - constructor.
  - reflexivity.
  - apply needs_quotes_spaces.
  - unfold Csv.within_limit. rewrite spaces_length, N2Nat.id. reflexivity.
Defined.

(** ** Converting onto the data file itself *)

(** X29. Where the path of the data file is already the one of the new
    format (the state [convert] leaves when it is called without a data
    file) and the file holds no record, [convert] removes it as the stale
    file of the new format, reads no record back and raises
    [FileNotFoundError] on removing the data file; the object is
    unchanged. *)
Theorem convert_onto_data_file (w : World) (newFormat : string) :
  dataFile (self w) = fileName (self w) +:+ "." +:+ newFormat ->
  newFormat <> currentFormat (self w) ->
  supported newFormat = true ->
  is_Some (disk w !! dataFile (self w)) ->
  getRecords_db w = (Ret [], w) ->
  convert newFormat w
  = (Raise FileNotFoundError,
     world (self w) (delete (dataFile (self w)) (disk w))).
Proof.
  intros Hpath Hne Hsup [text Hfile] Hget.
  destruct w as [db fs]; cbn [self disk] in *. fold (world db fs) in *.
  destruct (getRecords_db_inv _ _ _ _ Hget) as (current & Hcurrent & Hread).
  destruct (formats_In (S := World) newFormat (world db fs) Hsup)
    as (target & Htar & Htarget).
  unfold convert. rewrite (bind_Ret _ _ _ _ _ (get_self_eq db fs)).
  destruct (String.eqb_spec newFormat (currentFormat db)) as [E | _];
    [exfalso; by apply Hne |].
  rewrite (bind_Ret _ _ _ _ _ (on_disk_eq _ db _ _ _ (isfile_Some _ _ _ Hfile))).
  cbn [negb]. rewrite Hsup.
  rewrite (bind_Ret _ _ _ _ _ Hcurrent), (bind_Ret _ _ _ _ _ Hread).
  rewrite <- Hpath.
  rewrite (bind_Ret _ _ _ _ _ (on_disk_eq _ db _ _ _ (isfile_Some _ _ _ Hfile))).
  rewrite (bind_Ret _ _ _ _ _ (on_disk_eq _ db _ _ _ (remove_Some _ _ _ Hfile))).
  rewrite (bind_Ret _ _ _ _ tt
             (eq_refl : for_each [] _ (world db (delete (dataFile db) fs)) = _)).
  rewrite (bind_Ret _ _ _ _ _ (Htarget _)).
  rewrite (bind_Ret _ _ _ _ _
             (on_disk_eq _ db _ _ _
                (format_getRecords_absent _ _ (dataFile db) _ Htar
                   (lookup_delete_eq _ _)))).
  cbn [Rec.list_eqb]. apply bind_Raise. apply on_disk_eq.
  unfold Os.remove. by rewrite lookup_delete_eq.
Qed.

Lemma convert_onto_data_file_witness :
  convert "csv"
    (world {| currentFormat := "json"; fileName := "db"; dataFile := "db.csv" |}
           {[ "db.csv" := Json.dumps (document []) ]})
  = (Raise FileNotFoundError,
     world {| currentFormat := "json"; fileName := "db"; dataFile := "db.csv" |}
           (delete "db.csv" {[ "db.csv" := Json.dumps (document []) ]})).
Proof.
  refine (convert_onto_data_file
            (world {| currentFormat := "json"; fileName := "db";
                      dataFile := "db.csv" |}
                   {[ "db.csv" := Json.dumps (document []) ]}) "csv"
            _ _ _ _ _).
  - reflexivity.
  - discriminate.
  - reflexivity.
  - eexists. reflexivity.
  - vm_compute. reflexivity.
Defined.
